(** * The Kubernetes scheduler driver of torpedo (drivers/scheduler/k8s/k8s.go)

    A shallow embedding of the driver: every driver method becomes a function
    in a small monad that threads the state of the cluster and records, in
    call order, each request made to the cluster client (package k8sutils)
    together with its outcome.  The client, the Go formatting of an arbitrary
    object and the two functions of package factory that the driver calls
    are not part of k8s.go: they are parameters of the development.  A
    registry written after the specification implements the factory. *)

From stdpp Require Import base list strings gmap.

Open Scope string_scope.
Open Scope list_scope.
Open Scope stdpp_scope.

(** ** Kubernetes API objects

    Only the fields the driver reads are kept. *)

Module v1.
(** [v1.NodeAddressType] is a Go string type. *)
Definition NodeAddressType : Type := string.
Definition NodeHostName : NodeAddressType := "Hostname".
Definition NodeExternalIP : NodeAddressType := "ExternalIP".
Definition NodeInternalIP : NodeAddressType := "InternalIP".

Record NodeAddress : Type := mkNodeAddress
  { Type_ : NodeAddressType; Address : string }.

Record NodeStatus : Type := mkNodeStatus
  { Addresses : list NodeAddress }.

Record Node : Type := mkNode
  { Name : string; Labels : gmap string string; Status : NodeStatus }.

Record NodeList : Type := mkNodeList
  { Items : list Node }.

Record PersistentVolumeClaim : Type := mkPersistentVolumeClaim
  { pvc_Name : string }.
End v1.

Module storage_v1beta1.
Record StorageClass : Type := mkStorageClass
  { Name : string }.
End storage_v1beta1.

Module v1beta1.
Record Deployment : Type := mkDeployment
  { Name : string }.
End v1beta1.

(** A component of an application is a Go [interface{}]: the driver only
    asks for its dynamic type.  [OtherObj] stands for a value of any dynamic
    type other than the three pointer types the driver tests for. *)
Inductive ResourceObject : Type :=
| StorageClassObj (obj : storage_v1beta1.StorageClass)
| PersistentVolumeClaimObj (obj : v1.PersistentVolumeClaim)
| DeploymentObj (obj : v1beta1.Deployment)
| OtherObj (tag : string).

(** ** Package spec: application specifications *)

Module spec.
Record AppSpec : Type := mkAppSpec
  { Key : string;
    Core : string → list ResourceObject;
    Storage : string → list ResourceObject }.
End spec.

(** ** Package scheduler: nodes, contexts, options *)

Module scheduler.
Inductive NodeType : Type := NodeTypeMaster | NodeTypeWorker.

Record Node : Type := mkNode
  { Name : string; Addresses : list string; Type_ : NodeType }.

Record Context : Type := mkContext
  { UID : string; App : spec.AppSpec }.

Record ScheduleOptions : Type := mkScheduleOptions
  { AppKeys : list string }.
End scheduler.

(** ** Errors

    A Go [error] returned by the driver.  An error of the cluster client is
    known by its message (what [%v] prints); the driver's own error structs
    carry the application and a cause.  [ErrUnknownAppKind] and
    [ErrUnsupportedResourceKind] are the two kinds of the specification's
    taxonomy that k8s.go does not construct itself. *)
Inductive error : Type :=
| ClientError (msg : string)
| ErrUnknownAppKind (key : string)
| ErrUnsupportedResourceKind (App : spec.AppSpec) (Cause : string)
| ErrFailedToScheduleApp (App : spec.AppSpec) (Cause : string)
| ErrFailedToValidateApp (App : spec.AppSpec) (Cause : string)
| ErrFailedToDestroyApp (App : spec.AppSpec) (Cause : string)
| ErrFailedToValidateAppDestroy (App : spec.AppSpec) (Cause : string)
| ErrFailedToGetVolumesForApp (App : spec.AppSpec) (Cause : string)
| ErrFailedToGetVolumesParameters (App : spec.AppSpec) (Cause : string)
| ErrFailedToValidateStorage (App : spec.AppSpec) (Cause : string)
| ErrFailedToDestroyStorage (App : spec.AppSpec) (Cause : string).

(** The application an error is attributed to, when it has one. *)
Definition error_App (e : error) : option spec.AppSpec :=
  match e with
  | ClientError _ | ErrUnknownAppKind _ => None
  | ErrUnsupportedResourceKind a _ | ErrFailedToScheduleApp a _
  | ErrFailedToValidateApp a _ | ErrFailedToDestroyApp a _
  | ErrFailedToValidateAppDestroy a _ | ErrFailedToGetVolumesForApp a _
  | ErrFailedToGetVolumesParameters a _ | ErrFailedToValidateStorage a _
  | ErrFailedToDestroyStorage a _ => Some a
  end.

Definition error_Cause (e : error) : string :=
  match e with
  | ClientError m => m
  | ErrUnknownAppKind k => k
  | ErrUnsupportedResourceKind _ c | ErrFailedToScheduleApp _ c
  | ErrFailedToValidateApp _ c | ErrFailedToDestroyApp _ c
  | ErrFailedToValidateAppDestroy _ c | ErrFailedToGetVolumesForApp _ c
  | ErrFailedToGetVolumesParameters _ c | ErrFailedToValidateStorage _ c
  | ErrFailedToDestroyStorage _ c => c
  end.

Definition is_UnsupportedResourceKind (e : error) : bool :=
  match e with ErrUnsupportedResourceKind _ _ => true | _ => false end.

Definition is_FailedToScheduleApp (e : error) : bool :=
  match e with ErrFailedToScheduleApp _ _ => true | _ => false end.

(** ** The cluster client (package k8sutils)

    A client function returns a value or an error message and may change the
    cluster. *)

Inductive result (A : Type) : Type :=
| Ok (a : A)
| Err (msg : string).
Arguments Ok {A} a.
Arguments Err {A} msg.

Module k8sutils.
Record Client (World : Type) : Type := mkClient
  { GetNodes : World → result v1.NodeList * World;
    IsNodeMaster : v1.Node → bool;
    CreateStorageClass :
      storage_v1beta1.StorageClass → World → result storage_v1beta1.StorageClass * World;
    CreatePersistentVolumeClaim :
      v1.PersistentVolumeClaim → World → result v1.PersistentVolumeClaim * World;
    CreateDeployment :
      v1beta1.Deployment → World → result v1beta1.Deployment * World;
    ValidateDeployement : v1beta1.Deployment → World → result unit * World;
    DeleteDeployment : v1beta1.Deployment → World → result unit * World;
    ValidateTerminatedDeployment : v1beta1.Deployment → World → result unit * World;
    GetVolumeForPersistentVolumeClaim :
      v1.PersistentVolumeClaim → World → result string * World;
    GetPersistentVolumeClaimParams :
      v1.PersistentVolumeClaim → World → result (gmap string string) * World;
    ValidateStorageClass : storage_v1beta1.StorageClass → World → result unit * World;
    ValidatePersistentVolumeClaim : v1.PersistentVolumeClaim → World → result unit * World;
    DeleteStorageClass : storage_v1beta1.StorageClass → World → result unit * World;
    DeletePersistentVolumeClaim : v1.PersistentVolumeClaim → World → result unit * World }.
Arguments GetNodes {World} _ _.
Arguments IsNodeMaster {World} _ _.
Arguments CreateStorageClass {World} _ _ _.
Arguments CreatePersistentVolumeClaim {World} _ _ _.
Arguments CreateDeployment {World} _ _ _.
Arguments ValidateDeployement {World} _ _ _.
Arguments DeleteDeployment {World} _ _ _.
Arguments ValidateTerminatedDeployment {World} _ _ _.
Arguments GetVolumeForPersistentVolumeClaim {World} _ _ _.
Arguments GetPersistentVolumeClaimParams {World} _ _ _.
Arguments ValidateStorageClass {World} _ _ _.
Arguments ValidatePersistentVolumeClaim {World} _ _ _.
Arguments DeleteStorageClass {World} _ _ _.
Arguments DeletePersistentVolumeClaim {World} _ _ _.
End k8sutils.

(** A request to the client, and the record of one request with its
    outcome ([None]: it returned no error). *)
Inductive Call : Type :=
| CallGetNodes
| CallCreateStorageClass (obj : storage_v1beta1.StorageClass)
| CallCreatePersistentVolumeClaim (obj : v1.PersistentVolumeClaim)
| CallCreateDeployment (obj : v1beta1.Deployment)
| CallValidateDeployement (obj : v1beta1.Deployment)
| CallDeleteDeployment (obj : v1beta1.Deployment)
| CallValidateTerminatedDeployment (obj : v1beta1.Deployment)
| CallGetVolumeForPersistentVolumeClaim (obj : v1.PersistentVolumeClaim)
| CallGetPersistentVolumeClaimParams (obj : v1.PersistentVolumeClaim)
| CallValidateStorageClass (obj : storage_v1beta1.StorageClass)
| CallValidatePersistentVolumeClaim (obj : v1.PersistentVolumeClaim)
| CallDeleteStorageClass (obj : storage_v1beta1.StorageClass)
| CallDeletePersistentVolumeClaim (obj : v1.PersistentVolumeClaim).

Record Event : Type := mkEvent
  { call : Call; failure : option string }.

Definition succeeded (ev : Event) : Prop := failure ev = None.

Definition result_failure {A : Type} (r : result A) : option string :=
  match r with Ok _ => None | Err msg => Some msg end.

(** ** The driver monad: cluster state in, value, cluster state and the
    requests made out. *)

Definition DriverM (World A : Type) : Type := World → A * World * list Event.

Definition ret {World A : Type} (a : A) : DriverM World A :=
  λ w, (a, w, []).

Definition bind {World A B : Type} (m : DriverM World A) (f : A → DriverM World B) : DriverM World B :=
  λ w, let '(a, w1, t1) := m w in
       let '(b, w2, t2) := f a w1 in
       (b, w2, t1 ++ t2).

Notation "x <~ m ;; k" := (bind m (λ x, k))
  (at level 100, m at next level, right associativity, only parsing).

(** One request to the client, recorded. *)
Definition invoke {World A : Type} (c : Call) (f : World → result A * World)
  : DriverM World (result A) :=
  λ w, let '(r, w1) := f w in (r, w1, [mkEvent c (result_failure r)]).

(** A Go [for _, x := range xs] whose body may return an error from the
    enclosing function: the first error ends the loop. *)
Fixpoint for_range {World A : Type} (body : A → DriverM World (option error)) (xs : list A)
  : DriverM World (option error) :=
  match xs with
  | [] => ret None
  | x :: rest =>
      r <~ body x ;;
      match r with
      | Some e => ret (Some e)
      | None => for_range body rest
      end
  end.

Definition value_of {World A : Type} (m : DriverM World A) (w : World) : A := (m w).1.1.
Definition world_of {World A : Type} (m : DriverM World A) (w : World) : World := (m w).1.2.
Definition trace_of {World A : Type} (m : DriverM World A) (w : World) : list Event := (m w).2.

(** ** Package factory: the application registry *)

Module factory.
(** The two functions of the package that the driver calls.  [Get] returns
    a specification or an error; [GetAll] returns specifications. *)
Record Factory : Type := mkFactory
  { Get : string → error + spec.AppSpec;
    GetAll : list spec.AppSpec }.

(** Modelled from the spec: package factory
    (drivers/scheduler/k8s/spec/factory) is not among the sources.  The
    registry holds the registered specifications in registration order. *)
Definition Registry : Type := list spec.AppSpec.


(** Modelled from the spec: [Get(key)] fails with [UnknownAppKind] if the
    key is absent. *)
Definition registry_Get (reg : Registry) (key : string) : error + spec.AppSpec :=
  match find (λ r, String.eqb (spec.Key r) key) reg with
  | Some s => inr s
  | None => inl (ErrUnknownAppKind key)
  end.

(** Modelled from the spec: [GetAll()] is the ordered sequence of the
    registered specifications, in registration order. *)
Definition registry_GetAll (reg : Registry) : list spec.AppSpec := reg.

(** Modelled from the spec: the factory the driver sees once the
    applications have registered. *)
Definition of_registry (reg : Registry) : Factory :=
  {| Get := registry_Get reg; GetAll := registry_GetAll reg |}.


Definition registered (reg : Registry) (key : string) : Prop :=
  key ∈ (spec.Key <$> reg).

#[global] Instance registered_dec (reg : Registry) (key : string)
  : Decision (registered reg key) :=
  decide (key ∈ (spec.Key <$> reg)).
End factory.

(** ** The driver *)

Record k8s : Type := mkK8s { nodes : list scheduler.Node }.

Section Driver.
Context {World : Type}.

(** The functions of package k8sutils. *)
Variable client : k8sutils.Client World.

(** What [fmt.Sprintf] prints for [%#v] on a component. *)
Variable GoSyntax : ResourceObject → string.

(** The functions of package factory. *)
Variable fac : factory.Factory.

Local Abbreviation M := (DriverM World).

Definition GetNodes (k : k8s) : list scheduler.Node := nodes k.

(** *** Init *)

(** The inner loop of [Init]: the addresses kept for one cluster node. *)
Definition Init_addrs (n : v1.Node) : list string :=
  fold_left
    (λ addrs addr,
       if String.eqb (v1.Type_ addr) v1.NodeExternalIP
          || String.eqb (v1.Type_ addr) v1.NodeInternalIP
       then addrs ++ [v1.Address addr]
       else addrs)
    (v1.Addresses (v1.Status n)) [].

(** The body of the outer loop of [Init]. *)
Definition Init_node (k : k8s) (n : v1.Node) : k8s :=
  let addrs := Init_addrs n in
  let nodeType :=
    if k8sutils.IsNodeMaster client n
    then scheduler.NodeTypeMaster
    else scheduler.NodeTypeWorker in
  {| nodes := nodes k ++ [scheduler.mkNode (v1.Name n) addrs nodeType] |}.

Definition Init (k : k8s) : M (k8s * option error) :=
  r <~ invoke CallGetNodes (k8sutils.GetNodes client) ;;
  match r with
  | Err err => ret (k, Some (ClientError err))
  | Ok nodes => ret (fold_left Init_node (v1.Items nodes) k, None)
  end.

(** *** Schedule *)

(** The first loop of [Schedule]: the keys of the options are looked up
    one after the other; the first unknown key ends the call. *)
Fixpoint Schedule_resolve (keys : list string) (specs : list spec.AppSpec)
  : error + list spec.AppSpec :=
  match keys with
  | [] => inr specs
  | key :: rest =>
      match factory.Get fac key with
      | inl err => inl err
      | inr spec => Schedule_resolve rest (specs ++ [spec])
      end
  end.

Definition Schedule_specs_of (options : scheduler.ScheduleOptions)
  : error + list spec.AppSpec :=
  if Nat.ltb 0 (length (scheduler.AppKeys options))
  then Schedule_resolve (scheduler.AppKeys options) []
  else inr (factory.GetAll fac).

(** The body of the loop over [spec.Storage(instanceID)]. *)
Definition Schedule_storage (spec : spec.AppSpec) (storage : ResourceObject)
  : M (option error) :=
  match storage with
  | StorageClassObj obj =>
      r <~ invoke (CallCreateStorageClass obj) (k8sutils.CreateStorageClass client obj) ;;
      match r with
      | Err err =>
          ret (Some (ErrFailedToScheduleApp spec
            ("Failed to create storage class: " +:+ storage_v1beta1.Name obj
             +:+ ". Err: " +:+ err)))
      | Ok sc => ret None
      end
  | PersistentVolumeClaimObj obj =>
      r <~ invoke (CallCreatePersistentVolumeClaim obj)
             (k8sutils.CreatePersistentVolumeClaim client obj) ;;
      match r with
      | Err err =>
          ret (Some (ErrFailedToScheduleApp spec
            ("Failed to create PVC: " +:+ v1.pvc_Name obj +:+ ". Err: " +:+ err)))
      | Ok pvc => ret None
      end
  | _ =>
      ret (Some (ErrFailedToScheduleApp spec
        ("Failed to create unsupported storage component: " +:+ GoSyntax storage +:+ ".")))
  end.

(** The body of the loop over [spec.Core(instanceID)]. *)
Definition Schedule_core (spec : spec.AppSpec) (core : ResourceObject)
  : M (option error) :=
  match core with
  | DeploymentObj obj =>
      r <~ invoke (CallCreateDeployment obj) (k8sutils.CreateDeployment client obj) ;;
      match r with
      | Err err =>
          ret (Some (ErrFailedToScheduleApp spec
            ("Failed to create Deployment: " +:+ v1beta1.Name obj +:+ ". Err: " +:+ err)))
      | Ok dep => ret None
      end
  | _ =>
      ret (Some (ErrFailedToScheduleApp spec
        ("Failed to create unsupported core component: " +:+ GoSyntax core +:+ ".")))
  end.

(** The loop over the resolved specifications; [contexts] is the slice
    built so far.  Every failing path returns a nil slice. *)
Fixpoint Schedule_specs (instanceID : string) (specs : list spec.AppSpec)
    (contexts : list scheduler.Context)
  : M (list scheduler.Context * option error) :=
  match specs with
  | [] => ret (contexts, None)
  | spec :: rest =>
      r <~ for_range (Schedule_storage spec) (spec.Storage spec instanceID) ;;
      match r with
      | Some err => ret ([], Some err)
      | None =>
          r <~ for_range (Schedule_core spec) (spec.Core spec instanceID) ;;
          match r with
          | Some err => ret ([], Some err)
          | None =>
              let ctx := scheduler.mkContext instanceID spec in
              Schedule_specs instanceID rest (contexts ++ [ctx])
          end
      end
  end.

Definition Schedule (instanceID : string) (options : scheduler.ScheduleOptions)
  : M (list scheduler.Context * option error) :=
  match Schedule_specs_of options with
  | inl err => ret ([], Some err)
  | inr specs => Schedule_specs instanceID specs []
  end.

(** *** WaitForRunning, Destroy, WaitForDestroy *)

Definition WaitForRunning_core (ctx : scheduler.Context) (core : ResourceObject)
  : M (option error) :=
  match core with
  | DeploymentObj obj =>
      r <~ invoke (CallValidateDeployement obj) (k8sutils.ValidateDeployement client obj) ;;
      match r with
      | Err err =>
          ret (Some (ErrFailedToValidateApp (scheduler.App ctx)
            ("Failed to validate Deployment: " +:+ v1beta1.Name obj +:+ ". Err: " +:+ err)))
      | Ok _ => ret None
      end
  | _ =>
      ret (Some (ErrFailedToValidateApp (scheduler.App ctx)
        ("Failed to validate unsupported core component: " +:+ GoSyntax core +:+ ".")))
  end.

Definition WaitForRunning (ctx : scheduler.Context) : M (option error) :=
  for_range (WaitForRunning_core ctx)
    (spec.Core (scheduler.App ctx) (scheduler.UID ctx)).

Definition Destroy_core (ctx : scheduler.Context) (core : ResourceObject)
  : M (option error) :=
  match core with
  | DeploymentObj obj =>
      r <~ invoke (CallDeleteDeployment obj) (k8sutils.DeleteDeployment client obj) ;;
      match r with
      | Err err =>
          ret (Some (ErrFailedToDestroyApp (scheduler.App ctx)
            ("Failed to destroy Deployment: " +:+ v1beta1.Name obj +:+ ". Err: " +:+ err)))
      | Ok _ => ret None
      end
  | _ =>
      ret (Some (ErrFailedToDestroyApp (scheduler.App ctx)
        ("Failed to destroy unsupported core component: " +:+ GoSyntax core +:+ ".")))
  end.

Definition Destroy (ctx : scheduler.Context) : M (option error) :=
  for_range (Destroy_core ctx)
    (spec.Core (scheduler.App ctx) (scheduler.UID ctx)).

Definition WaitForDestroy_core (ctx : scheduler.Context) (core : ResourceObject)
  : M (option error) :=
  match core with
  | DeploymentObj obj =>
      r <~ invoke (CallValidateTerminatedDeployment obj)
             (k8sutils.ValidateTerminatedDeployment client obj) ;;
      match r with
      | Err err =>
          ret (Some (ErrFailedToValidateAppDestroy (scheduler.App ctx)
            ("Failed to validate destroy of deployment: " +:+ v1beta1.Name obj
             +:+ ". Err: " +:+ err)))
      | Ok _ => ret None
      end
  | _ =>
      ret (Some (ErrFailedToValidateAppDestroy (scheduler.App ctx)
        ("Failed to validate destory of unsupported core component: "
         +:+ GoSyntax core +:+ ".")))
  end.

Definition WaitForDestroy (ctx : scheduler.Context) : M (option error) :=
  for_range (WaitForDestroy_core ctx)
    (spec.Core (scheduler.App ctx) (scheduler.UID ctx)).

(** *** GetVolumes, GetVolumeParameters *)

(** The loop of [GetVolumes]; [volumes] is the slice built so far.  A
    component that is not a claim takes no branch of the loop body. *)
Fixpoint GetVolumes_loop (ctx : scheduler.Context) (storages : list ResourceObject)
    (volumes : list string) : M (list string * option error) :=
  match storages with
  | [] => ret (volumes, None)
  | PersistentVolumeClaimObj obj :: rest =>
      r <~ invoke (CallGetVolumeForPersistentVolumeClaim obj)
             (k8sutils.GetVolumeForPersistentVolumeClaim client obj) ;;
      match r with
      | Err err =>
          ret ([], Some (ErrFailedToGetVolumesForApp (scheduler.App ctx)
            ("Failed to get volume for PVC: " +:+ v1.pvc_Name obj +:+ ". Err: " +:+ err)))
      | Ok vol => GetVolumes_loop ctx rest (volumes ++ [vol])
      end
  | _ :: rest => GetVolumes_loop ctx rest volumes
  end.

Definition GetVolumes (ctx : scheduler.Context) : M (list string * option error) :=
  GetVolumes_loop ctx (spec.Storage (scheduler.App ctx) (scheduler.UID ctx)) [].

Fixpoint GetVolumeParameters_loop (ctx : scheduler.Context)
    (storages : list ResourceObject) (result : gmap string (gmap string string))
  : M (gmap string (gmap string string) * option error) :=
  match storages with
  | [] => ret (result, None)
  | PersistentVolumeClaimObj obj :: rest =>
      r <~ invoke (CallGetVolumeForPersistentVolumeClaim obj)
             (k8sutils.GetVolumeForPersistentVolumeClaim client obj) ;;
      match r with
      | Err err =>
          ret (∅, Some (ErrFailedToGetVolumesParameters (scheduler.App ctx)
            ("failed to get volume for PVC: " +:+ v1.pvc_Name obj +:+ ". Err: " +:+ err)))
      | Ok vol =>
          r <~ invoke (CallGetPersistentVolumeClaimParams obj)
                 (k8sutils.GetPersistentVolumeClaimParams client obj) ;;
          match r with
          | Err err =>
              ret (∅, Some (ErrFailedToGetVolumesParameters (scheduler.App ctx)
                ("failed to get params for volume: " +:+ v1.pvc_Name obj
                 +:+ ". Err: " +:+ err)))
          | Ok params => GetVolumeParameters_loop ctx rest (<[vol := params]> result)
          end
      end
  | _ :: rest => GetVolumeParameters_loop ctx rest result
  end.

Definition GetVolumeParameters (ctx : scheduler.Context)
  : M (gmap string (gmap string string) * option error) :=
  GetVolumeParameters_loop ctx (spec.Storage (scheduler.App ctx) (scheduler.UID ctx)) ∅.

(** *** InspectVolumes, DeleteVolumes *)

Definition InspectVolumes_storage (ctx : scheduler.Context) (storage : ResourceObject)
  : M (option error) :=
  match storage with
  | StorageClassObj obj =>
      r <~ invoke (CallValidateStorageClass obj) (k8sutils.ValidateStorageClass client obj) ;;
      match r with
      | Err err =>
          ret (Some (ErrFailedToValidateStorage (scheduler.App ctx)
            ("Failed to validate StorageClass: " +:+ storage_v1beta1.Name obj
             +:+ ". Err: " +:+ err)))
      | Ok _ => ret None
      end
  | PersistentVolumeClaimObj obj =>
      r <~ invoke (CallValidatePersistentVolumeClaim obj)
             (k8sutils.ValidatePersistentVolumeClaim client obj) ;;
      match r with
      | Err err =>
          ret (Some (ErrFailedToValidateStorage (scheduler.App ctx)
            ("Failed to validate PVC: " +:+ v1.pvc_Name obj +:+ ". Err: " +:+ err)))
      | Ok _ => ret None
      end
  | _ =>
      ret (Some (ErrFailedToValidateStorage (scheduler.App ctx)
        ("Failed to validate unsupported storage component: " +:+ GoSyntax storage +:+ ".")))
  end.

Definition InspectVolumes (ctx : scheduler.Context) : M (option error) :=
  for_range (InspectVolumes_storage ctx)
    (spec.Storage (scheduler.App ctx) (scheduler.UID ctx)).

Definition DeleteVolumes_storage (ctx : scheduler.Context) (storage : ResourceObject)
  : M (option error) :=
  match storage with
  | StorageClassObj obj =>
      r <~ invoke (CallDeleteStorageClass obj) (k8sutils.DeleteStorageClass client obj) ;;
      match r with
      | Err err =>
          ret (Some (ErrFailedToDestroyStorage (scheduler.App ctx)
            ("Failed to destroy storage class: " +:+ storage_v1beta1.Name obj
             +:+ ". Err: " +:+ err)))
      | Ok _ => ret None
      end
  | PersistentVolumeClaimObj obj =>
      r <~ invoke (CallDeletePersistentVolumeClaim obj)
             (k8sutils.DeletePersistentVolumeClaim client obj) ;;
      match r with
      | Err err =>
          ret (Some (ErrFailedToDestroyStorage (scheduler.App ctx)
            ("Failed to destroy PVC: " +:+ v1.pvc_Name obj +:+ ". Err: " +:+ err)))
      | Ok _ => ret None
      end
  | _ =>
      ret (Some (ErrFailedToDestroyStorage (scheduler.App ctx)
        ("Failed to destroy unsupported storage component: " +:+ GoSyntax storage +:+ ".")))
  end.

Definition DeleteVolumes (ctx : scheduler.Context) : M (option error) :=
  for_range (DeleteVolumes_storage ctx)
    (spec.Storage (scheduler.App ctx) (scheduler.UID ctx)).

(** *** Specification vocabulary that depends on the client *)

(** A unit of work of [Schedule]: a storage or a core component of a
    specification. *)
Inductive Component : Type :=
| StorageOf (s : spec.AppSpec) (o : ResourceObject)
| CoreOf (s : spec.AppSpec) (o : ResourceObject).

Definition Schedule_component (c : Component) : M (option error) :=
  match c with
  | StorageOf s o => Schedule_storage s o
  | CoreOf s o => Schedule_core s o
  end.

(** What the client answers when asked for the volume of each claim in
    turn. *)
Fixpoint lookups (pvcs : list v1.PersistentVolumeClaim) (w : World)
  : list (result string) :=
  match pvcs with
  | [] => []
  | obj :: rest =>
      let '(r, w1) := k8sutils.GetVolumeForPersistentVolumeClaim client obj w in
      r :: lookups rest w1
  end.

End Driver.

(** ** Specification vocabulary *)

(** The request each operation makes for a component, [None] when the
    operation has no case for the component's kind. *)

Definition create_storage_request (o : ResourceObject) : option Call :=
  match o with
  | StorageClassObj obj => Some (CallCreateStorageClass obj)
  | PersistentVolumeClaimObj obj => Some (CallCreatePersistentVolumeClaim obj)
  | _ => None
  end.

Definition create_core_request (o : ResourceObject) : option Call :=
  match o with
  | DeploymentObj obj => Some (CallCreateDeployment obj)
  | _ => None
  end.

Definition create_request (c : Component) : option Call :=
  match c with
  | StorageOf _ o => create_storage_request o
  | CoreOf _ o => create_core_request o
  end.

Definition validate_request (o : ResourceObject) : option Call :=
  match o with
  | DeploymentObj obj => Some (CallValidateDeployement obj)
  | _ => None
  end.

Definition delete_request (o : ResourceObject) : option Call :=
  match o with
  | DeploymentObj obj => Some (CallDeleteDeployment obj)
  | _ => None
  end.

Definition validate_terminated_request (o : ResourceObject) : option Call :=
  match o with
  | DeploymentObj obj => Some (CallValidateTerminatedDeployment obj)
  | _ => None
  end.

Definition validate_storage_request (o : ResourceObject) : option Call :=
  match o with
  | StorageClassObj obj => Some (CallValidateStorageClass obj)
  | PersistentVolumeClaimObj obj => Some (CallValidatePersistentVolumeClaim obj)
  | _ => None
  end.

Definition delete_storage_request (o : ResourceObject) : option Call :=
  match o with
  | StorageClassObj obj => Some (CallDeleteStorageClass obj)
  | PersistentVolumeClaimObj obj => Some (CallDeletePersistentVolumeClaim obj)
  | _ => None
  end.

(** The claims among the storage components, in order. *)
Definition claims_of (storages : list ResourceObject) : list v1.PersistentVolumeClaim :=
  omap (λ o, match o with PersistentVolumeClaimObj obj => Some obj | _ => None end)
    storages.

Definition volume_request (obj : v1.PersistentVolumeClaim) : option Call :=
  Some (CallGetVolumeForPersistentVolumeClaim obj).

Definition result_value {A : Type} (r : result A) : option A :=
  match r with Ok a => Some a | Err _ => None end.

(** The work of one [Schedule] call: for each specification in turn, its
    storage components, then its core components. *)
Definition components (instanceID : string) (s : spec.AppSpec) : list Component :=
  (StorageOf s <$> spec.Storage s instanceID) ++ (CoreOf s <$> spec.Core s instanceID).

Definition work (instanceID : string) (specs : list spec.AppSpec) : list Component :=
  concat (components instanceID <$> specs).

(** [served req xs t]: the trace [t] holds exactly one request per element
    of [xs], in the order of [xs], and each of them succeeded. *)
Definition served {A : Type} (req : A → option Call) (xs : list A) (t : list Event)
  : Prop :=
  Forall2 (λ x ev, req x = Some (call ev) ∧ succeeded ev) xs t.

(** [failed_attempt req x t]: what is recorded when the work stops at [x]:
    nothing when the operation has no case for [x], and otherwise the one
    request for [x], which failed. *)
Definition failed_attempt {A : Type} (req : A → option Call) (x : A) (t : list Event)
  : Prop :=
  match req x with
  | None => t = []
  | Some c => ∃ msg, t = [mkEvent c (Some msg)]
  end.

(** [fail_fast req xs r t]: a run over [xs] that returned [r] and recorded
    [t].  Without an error every element was served.  With an error, the
    elements before some [x] were served, the attempt on [x] failed, and
    nothing was requested for the elements after [x]. *)
Definition fail_fast {A : Type} (req : A → option Call) (xs : list A)
    (r : option error) (t : list Event) : Prop :=
  match r with
  | None => served req xs t
  | Some _ =>
      ∃ pre x post tpre tx,
        xs = pre ++ x :: post ∧ t = tpre ++ tx ∧
        served req pre tpre ∧ failed_attempt req x tx
  end.

Definition is_create (c : Call) : bool :=
  match c with
  | CallCreateStorageClass _ | CallCreatePersistentVolumeClaim _
  | CallCreateDeployment _ => true
  | _ => false
  end.

(** ** A small cluster to run the driver on

    A cluster that remembers the names of the objects created in it.
    Creating an object twice fails, and so does validating, deleting or
    resolving an object that was never created. *)

Module mock.

Record Cluster : Type := mkCluster
  { reachable : bool; objects : list string; machines : list v1.Node }.

Definition present (name : string) (c : Cluster) : bool :=
  existsb (String.eqb name) (objects c).

Definition create {A : Type} (name : string) (obj : A) (c : Cluster)
  : result A * Cluster :=
  if present name c
  then (Err ("already exists: " +:+ name), c)
  else (Ok obj, mkCluster (reachable c) (objects c ++ [name]) (machines c)).

Definition check (name : string) (c : Cluster) : result unit * Cluster :=
  if present name c then (Ok (), c) else (Err ("not found: " +:+ name), c).

Definition remove (name : string) (c : Cluster) : result unit * Cluster :=
  if present name c
  then (Ok (),
        mkCluster (reachable c)
          (List.filter (λ n, negb (String.eqb name n)) (objects c)) (machines c))
  else (Err ("not found: " +:+ name), c).

Definition gone (name : string) (c : Cluster) : result unit * Cluster :=
  if present name c then (Err ("still present: " +:+ name), c) else (Ok (), c).

Definition volume (name : string) (c : Cluster) : result string * Cluster :=
  if present name c then (Ok ("pv-" +:+ name), c) else (Err ("not found: " +:+ name), c).

Definition params (name : string) (c : Cluster)
  : result (gmap string string) * Cluster :=
  if present name c
  then (Ok {[ "repl" := "3" ]}, c)
  else (Err ("not found: " +:+ name), c).

Definition list_nodes (c : Cluster) : result v1.NodeList * Cluster :=
  if reachable c
  then (Ok (v1.mkNodeList (machines c)), c)
  else (Err "cluster unreachable", c).

Definition is_master (n : v1.Node) : bool :=
  match v1.Labels n !! "node-role.kubernetes.io/master" with
  | Some _ => true
  | None => false
  end.

Definition sc_name (obj : storage_v1beta1.StorageClass) : string :=
  "sc/" +:+ storage_v1beta1.Name obj.
Definition pvc_name (obj : v1.PersistentVolumeClaim) : string :=
  "pvc/" +:+ v1.pvc_Name obj.
Definition dep_name (obj : v1beta1.Deployment) : string :=
  "deploy/" +:+ v1beta1.Name obj.

Definition client : k8sutils.Client Cluster :=
  {| k8sutils.GetNodes := list_nodes;
     k8sutils.IsNodeMaster := is_master;
     k8sutils.CreateStorageClass := λ obj, create (sc_name obj) obj;
     k8sutils.CreatePersistentVolumeClaim := λ obj, create (pvc_name obj) obj;
     k8sutils.CreateDeployment := λ obj, create (dep_name obj) obj;
     k8sutils.ValidateDeployement := λ obj, check (dep_name obj);
     k8sutils.DeleteDeployment := λ obj, remove (dep_name obj);
     k8sutils.ValidateTerminatedDeployment := λ obj, gone (dep_name obj);
     k8sutils.GetVolumeForPersistentVolumeClaim := λ obj, volume (pvc_name obj);
     k8sutils.GetPersistentVolumeClaimParams := λ obj, params (pvc_name obj);
     k8sutils.ValidateStorageClass := λ obj, check (sc_name obj);
     k8sutils.ValidatePersistentVolumeClaim := λ obj, check (pvc_name obj);
     k8sutils.DeleteStorageClass := λ obj, remove (sc_name obj);
     k8sutils.DeletePersistentVolumeClaim := λ obj, remove (pvc_name obj) |}.

Definition GoSyntax (o : ResourceObject) : string :=
  match o with
  | StorageClassObj obj => "&v1beta1.StorageClass{Name:" +:+ storage_v1beta1.Name obj +:+ "}"
  | PersistentVolumeClaimObj obj => "&v1.PersistentVolumeClaim{Name:" +:+ v1.pvc_Name obj +:+ "}"
  | DeploymentObj obj => "&v1beta1.Deployment{Name:" +:+ v1beta1.Name obj +:+ "}"
  | OtherObj tag => tag
  end.

(** Three applications: one claim and one deployment; a storage class, a
    claim and a deployment; and one whose core holds a component of a kind
    the driver has no case for. *)

Definition echo : spec.AppSpec :=
  {| spec.Key := "echo";
     spec.Core := λ id, [DeploymentObj (v1beta1.mkDeployment ("echo-" +:+ id))];
     spec.Storage :=
       λ id, [PersistentVolumeClaimObj (v1.mkPersistentVolumeClaim ("echo-data-" +:+ id))] |}.

Definition postgres : spec.AppSpec :=
  {| spec.Key := "postgres";
     spec.Core := λ id, [DeploymentObj (v1beta1.mkDeployment ("postgres-" +:+ id))];
     spec.Storage :=
       λ id, [StorageClassObj (storage_v1beta1.mkStorageClass "px-postgres-sc");
              PersistentVolumeClaimObj
                (v1.mkPersistentVolumeClaim ("postgres-data-" +:+ id))] |}.

Definition webapp : spec.AppSpec :=
  {| spec.Key := "webapp";
     spec.Core := λ id, [DeploymentObj (v1beta1.mkDeployment ("web-" +:+ id));
                         OtherObj "&v1.Service{Name:web}"];
     spec.Storage := λ id, [] |}.

(** A storage list with a component of an unknown kind between two claims. *)
Definition mixed : spec.AppSpec :=
  {| spec.Key := "mixed";
     spec.Core := λ id, [];
     spec.Storage :=
       λ id, [PersistentVolumeClaimObj (v1.mkPersistentVolumeClaim ("a-" +:+ id));
              OtherObj "&v1.ConfigMap{Name:cfg}";
              PersistentVolumeClaimObj (v1.mkPersistentVolumeClaim ("b-" +:+ id))] |}.

Definition master0 : v1.Node :=
  {| v1.Name := "master-0";
     v1.Labels := {[ "node-role.kubernetes.io/master" := "" ]};
     v1.Status :=
       {| v1.Addresses :=
            [v1.mkNodeAddress v1.NodeHostName "master-0";
             v1.mkNodeAddress v1.NodeInternalIP "10.0.0.1";
             v1.mkNodeAddress v1.NodeExternalIP "54.1.2.3"] |} |}.

Definition worker0 : v1.Node :=
  {| v1.Name := "worker-0";
     v1.Labels := ∅;
     v1.Status :=
       {| v1.Addresses :=
            [v1.mkNodeAddress v1.NodeInternalIP "10.0.0.2";
             v1.mkNodeAddress v1.NodeHostName "worker-0"] |} |}.

(** Three deployments, no storage. *)
Definition trio : spec.AppSpec :=
  {| spec.Key := "trio";
     spec.Core := λ id, [DeploymentObj (v1beta1.mkDeployment ("first-" +:+ id));
                         DeploymentObj (v1beta1.mkDeployment ("second-" +:+ id));
                         DeploymentObj (v1beta1.mkDeployment ("third-" +:+ id))];
     spec.Storage := λ id, [] |}.

Definition fresh : Cluster := mkCluster true [] [master0; worker0].
Definition unreachable : Cluster := mkCluster false [] [master0; worker0].

End mock.

(** The specification a unit of work belongs to, and its component. *)
Definition owner (c : Component) : spec.AppSpec :=
  match c with StorageOf s _ | CoreOf s _ => s end.

Definition component_object (c : Component) : ResourceObject :=
  match c with StorageOf _ o | CoreOf _ o => o end.

(** [attributed mk e]: [e] is the error kind [mk] of an operation, carrying
    the application [app]. *)
Definition attributed (mk : spec.AppSpec → string → error) (app : spec.AppSpec)
    (e : error) : Prop :=
  ∃ cause, e = mk app cause.

Definition context_core (ctx : scheduler.Context) : list ResourceObject :=
  spec.Core (scheduler.App ctx) (scheduler.UID ctx).

Definition context_storage (ctx : scheduler.Context) : list ResourceObject :=
  spec.Storage (scheduler.App ctx) (scheduler.UID ctx).

(** [rejects_unsupported body req err_of]: on a component the operation
    has no case for, the loop body returns the error [err_of x], makes no
    request and leaves the cluster as it is. *)
Definition rejects_unsupported {World A : Type}
    (body : A → DriverM World (option error)) (req : A → option Call)
    (err_of : A → error) : Prop :=
  ∀ x w, req x = None → body x w = (Some (err_of x), w, []).

(** [never_skips op parts req mk]: a call of [op] on a context one of whose
    components the operation has no case for returns an error, of the
    operation's kind [mk] and carrying the context's application. *)
Definition never_skips {World : Type}
    (op : scheduler.Context → DriverM World (option error))
    (parts : scheduler.Context → list ResourceObject)
    (req : ResourceObject → option Call)
    (mk : spec.AppSpec → string → error) : Prop :=
  ∀ ctx w x, x ∈ parts ctx → req x = None →
    ∃ e, value_of (op ctx) w = Some e ∧ attributed mk (scheduler.App ctx) e.

(** [dispatches body req]: the loop body [body] makes the request [req x]
    for a component it has a case for, and fails exactly when the request
    does; for any other component it fails without a request and without
    touching the cluster. *)
Definition dispatches {World A : Type} (body : A → DriverM World (option error))
    (req : A → option Call) : Prop :=
  ∀ x w,
    match req x with
    | None => ∃ e, body x w = (Some e, w, [])
    | Some c => ∃ w1 fl r, body x w = (r, w1, [mkEvent c fl]) ∧ (fl = None ↔ r = None)
    end.

(** ** Further specification vocabulary *)

(** The two requests [GetVolumeParameters] makes for a claim. *)
Inductive ParamStep : Type :=
| VolumeOf (obj : v1.PersistentVolumeClaim)
| ParamsOf (obj : v1.PersistentVolumeClaim).

Definition param_request (s : ParamStep) : option Call :=
  match s with
  | VolumeOf obj => Some (CallGetVolumeForPersistentVolumeClaim obj)
  | ParamsOf obj => Some (CallGetPersistentVolumeClaimParams obj)
  end.

Definition param_steps (pvcs : list v1.PersistentVolumeClaim) : list ParamStep :=
  pvcs ≫= λ obj, [VolumeOf obj; ParamsOf obj].

(** Requests that change the cluster. *)
Definition is_delete (c : Call) : bool :=
  match c with
  | CallDeleteDeployment _ | CallDeleteStorageClass _
  | CallDeletePersistentVolumeClaim _ => true
  | _ => false
  end.

Definition is_mutation (c : Call) : bool := is_create c || is_delete c.

(** [reports body req reject report]: [dispatches], with the errors named:
    [reject x] for a component without a case, [report x msg] when the
    request for [x] failed with the message [msg]. *)
Definition reports {World A : Type} (body : A → DriverM World (option error))
    (req : A → option Call) (reject : A → error) (report : A → string → error)
  : Prop :=
  ∀ x w,
    match req x with
    | None => body x w = (Some (reject x), w, [])
    | Some c =>
        ∃ w1 fl,
          body x w =
          (match fl with None => None | Some msg => Some (report x msg) end,
           w1, [mkEvent c fl])
    end.

Section LookupVocabulary.
Context {World : Type} (client : k8sutils.Client World).

(** What the client answers when asked, for each claim in turn, for its
    volume and then, if it has one, for its parameters. *)
Fixpoint param_lookups (pvcs : list v1.PersistentVolumeClaim) (w : World)
  : list (result (string * gmap string string)) :=
  match pvcs with
  | [] => []
  | obj :: rest =>
      let '(r, w1) := k8sutils.GetVolumeForPersistentVolumeClaim client obj w in
      match r with
      | Err msg => Err msg :: param_lookups rest w1
      | Ok vol =>
          let '(r2, w2) := k8sutils.GetPersistentVolumeClaimParams client obj w1 in
          match r2 with
          | Err msg => Err msg :: param_lookups rest w2
          | Ok ps => Ok (vol, ps) :: param_lookups rest w2
          end
      end
  end.

(** The two lookups of the client only read the cluster. *)
Definition read_only_lookups : Prop :=
  ∀ obj w,
    (k8sutils.GetVolumeForPersistentVolumeClaim client obj w).2 = w ∧
    (k8sutils.GetPersistentVolumeClaimParams client obj w).2 = w.

End LookupVocabulary.

(** ** What happened in the cluster

    The trace is written by the driver; the cluster is changed by the
    client.  [perform] is what a request named in a trace means: the client
    function of that name, run on a cluster.  [replays client t w w'] says
    that the trace [t] is a true record of a run that started in the
    cluster [w]: each request in turn, made to the client in the cluster
    the earlier ones left, gave the recorded outcome, and the last one
    left the cluster [w'].  A request made under another name, an outcome
    that is not the client's, or a change of the cluster that the trace
    does not account for breaks it. *)

Section ReplayVocabulary.
Context {World : Type} (client : k8sutils.Client World).

Definition outcome {A : Type} (rw : result A * World) : option string * World :=
  (result_failure rw.1, rw.2).

Definition perform (c : Call) (w : World) : option string * World :=
  match c with
  | CallGetNodes => outcome (k8sutils.GetNodes client w)
  | CallCreateStorageClass obj => outcome (k8sutils.CreateStorageClass client obj w)
  | CallCreatePersistentVolumeClaim obj =>
      outcome (k8sutils.CreatePersistentVolumeClaim client obj w)
  | CallCreateDeployment obj => outcome (k8sutils.CreateDeployment client obj w)
  | CallValidateDeployement obj => outcome (k8sutils.ValidateDeployement client obj w)
  | CallDeleteDeployment obj => outcome (k8sutils.DeleteDeployment client obj w)
  | CallValidateTerminatedDeployment obj =>
      outcome (k8sutils.ValidateTerminatedDeployment client obj w)
  | CallGetVolumeForPersistentVolumeClaim obj =>
      outcome (k8sutils.GetVolumeForPersistentVolumeClaim client obj w)
  | CallGetPersistentVolumeClaimParams obj =>
      outcome (k8sutils.GetPersistentVolumeClaimParams client obj w)
  | CallValidateStorageClass obj => outcome (k8sutils.ValidateStorageClass client obj w)
  | CallValidatePersistentVolumeClaim obj =>
      outcome (k8sutils.ValidatePersistentVolumeClaim client obj w)
  | CallDeleteStorageClass obj => outcome (k8sutils.DeleteStorageClass client obj w)
  | CallDeletePersistentVolumeClaim obj =>
      outcome (k8sutils.DeletePersistentVolumeClaim client obj w)
  end.

Fixpoint replays (t : list Event) (w w' : World) : Prop :=
  match t with
  | [] => w' = w
  | ev :: rest =>
      (perform (call ev) w).1 = failure ev ∧
      replays rest (perform (call ev) w).2 w'
  end.

(** [faithful m]: whatever the cluster [m] starts in, its trace is a true
    record of what it had the client do, and the cluster it ends in is the
    one those requests left. *)
Definition faithful {A : Type} (m : DriverM World A) : Prop :=
  ∀ w, replays (trace_of m w) w (world_of m w).

End ReplayVocabulary.

(** * Properties *)

(** ** Loops *)

Section Loops.
Context {World A : Type}.
Implicit Types (w : World) (body : A → DriverM World (option error)).

Lemma for_range_cons body x rest w :
  for_range body (x :: rest) w =
  match body x w with
  | (Some e, w1, t1) => (Some e, w1, t1)
  | (None, w1, t1) =>
      let '(r, w2, t2) := for_range body rest w1 in (r, w2, t1 ++ t2)
  end.
Proof.
  simpl. unfold bind at 1.
  destruct (body x w) as [[[e|] w1] t1]; simpl.
  - unfold ret. by rewrite app_nil_r.
  - reflexivity.
Qed.

Lemma for_range_app body xs ys w :
  for_range body (xs ++ ys) w =
  match for_range body xs w with
  | (Some e, w1, t1) => (Some e, w1, t1)
  | (None, w1, t1) =>
      let '(r, w2, t2) := for_range body ys w1 in (r, w2, t1 ++ t2)
  end.
Proof.
  revert w. induction xs as [|x xs IH]; intros w.
  - simpl. unfold ret. by destruct (for_range body ys w) as [[r w2] t2].
  - rewrite <- app_comm_cons, !for_range_cons.
    destruct (body x w) as [[[e|] w1] t1]; [done|].
    rewrite IH.
    destruct (for_range body xs w1) as [[[e|] w2] t2]; [done|].
    destruct (for_range body ys w2) as [[r w3] t3].
    by rewrite app_assoc.
Qed.

(** An error returned by a loop is the error its body returned for one of
    the elements. *)
Lemma for_range_error body xs w e :
  value_of (for_range body xs) w = Some e →
  ∃ x w0, x ∈ xs ∧ value_of (body x) w0 = Some e.
Proof.
  unfold value_of. revert w. induction xs as [|x xs IH]; intros w; [done|].
  rewrite for_range_cons.
  destruct (body x w) as [[[e'|] w1] t1] eqn:Hb; simpl.
  - intros [= ->]. exists x, w. split; [by left|]. by rewrite Hb.
  - specialize (IH w1).
    destruct (for_range body xs w1) as [[r w2] t2]. simpl in *.
    intros Hr. destruct (IH Hr) as (y & w0 & Hy & Hv).
    exists y, w0. split; [by right | done].
Qed.

(** The shape of every run of a dispatching loop. *)
Lemma for_range_fail_fast body req xs w :
  dispatches body req →
  fail_fast req xs (value_of (for_range body xs) w) (trace_of (for_range body xs) w).
Proof.
  intros Hd. unfold value_of, trace_of. revert w.
  induction xs as [|x xs IH]; intros w.
  - simpl. constructor.
  - rewrite for_range_cons. specialize (Hd x w).
    destruct (req x) as [c|] eqn:Hreq.
    + destruct Hd as (w1 & fl & r & -> & Hfl).
      destruct r as [e|].
      * simpl. exists [], x, xs, [], [mkEvent c fl].
        split_and!; [done|done|constructor|].
        unfold failed_attempt. rewrite Hreq.
        destruct fl as [msg|]; [by exists msg|].
        destruct Hfl as [Hfl _]. by specialize (Hfl eq_refl).
      * assert (fl = None) as -> by by apply Hfl.
        specialize (IH w1).
        destruct (for_range body xs w1) as [[[e|] w2] t2]; simpl in *.
        -- destruct IH as (pre & y & post & tpre & tx & -> & -> & Hs & Hf).
           exists (x :: pre), y, post, (mkEvent c None :: tpre), tx.
           split_and!; [done|done| |done].
           constructor; [done|exact Hs].
        -- constructor; [done|exact IH].
    + destruct Hd as (e & ->). simpl.
      exists [], x, xs, [], [].
      split_and!; [done|done|constructor|].
      unfold failed_attempt. by rewrite Hreq.
Qed.

(** A dispatching loop leaves no element unserved without reporting it. *)
Lemma for_range_unsupported body req xs w x :
  dispatches body req → x ∈ xs → req x = None →
  is_Some (value_of (for_range body xs) w).
Proof.
  intros Hd Hx Hreq.
  pose proof (for_range_fail_fast body req xs w Hd) as Hff.
  destruct (value_of (for_range body xs) w) as [e|]; [by eexists|].
  exfalso. simpl in Hff. unfold served in Hff.
  apply list_elem_of_lookup in Hx as [i Hi].
  destruct (Forall2_lookup_l _ _ _ _ _ Hff Hi) as (ev & _ & Hev & _).
  congruence.
Qed.

End Loops.

Lemma for_range_fmap {World A B : Type} (f : B → A)
    (body : A → DriverM World (option error)) (xs : list B) (w : World) :
  for_range body (f <$> xs) w = for_range (λ b, body (f b)) xs w.
Proof.
  revert w. induction xs as [|x xs IH]; intros w; [done|].
  rewrite fmap_cons, for_range_cons, (for_range_cons (λ b, body (f b))). cbv beta.
  destruct (body (f x) w) as [[[e|] w1] t1]; [done|].
  by rewrite IH.
Qed.

(** ** Init *)

Section InitProofs.
Context {World : Type} (client : k8sutils.Client World).

Lemma Init_addrs_acc (l : list v1.NodeAddress) (acc : list string) :
  fold_left
    (λ addrs addr,
       if String.eqb (v1.Type_ addr) v1.NodeExternalIP
          || String.eqb (v1.Type_ addr) v1.NodeInternalIP
       then addrs ++ [v1.Address addr]
       else addrs) l acc
  = acc ++ (v1.Address <$>
      filter (λ a, v1.Type_ a = v1.NodeExternalIP ∨ v1.Type_ a = v1.NodeInternalIP) l).
Proof.
  revert acc. induction l as [|a l IH]; intros acc.
  - simpl. by rewrite app_nil_r.
  - simpl fold_left. rewrite IH, filter_cons.
    destruct (String.eqb_spec (v1.Type_ a) v1.NodeExternalIP) as [He|He];
      destruct (String.eqb_spec (v1.Type_ a) v1.NodeInternalIP) as [Hi|Hi]; simpl;
      case_decide as Hd;
      try (by rewrite fmap_cons, <- app_assoc);
      try done;
      exfalso; tauto.
Qed.

Lemma Init_addrs_filter (n : v1.Node) :
  Init_addrs n =
  v1.Address <$>
    filter (λ a, v1.Type_ a = v1.NodeExternalIP ∨ v1.Type_ a = v1.NodeInternalIP)
      (v1.Addresses (v1.Status n)).
Proof. unfold Init_addrs. by rewrite Init_addrs_acc. Qed.

Lemma Init_nodes_acc (items : list v1.Node) (k : k8s) :
  fold_left (Init_node client) items k =
  mkK8s (nodes k ++
    ((λ n, scheduler.mkNode (v1.Name n) (Init_addrs n)
             (if k8sutils.IsNodeMaster client n
              then scheduler.NodeTypeMaster else scheduler.NodeTypeWorker)) <$> items)).
Proof.
  revert k. induction items as [|n items IH]; intros k.
  - simpl. rewrite app_nil_r. by destruct k.
  - simpl fold_left. rewrite IH. unfold Init_node at 1. simpl.
    by rewrite <- app_assoc.
Qed.

(** What [Init] does, by the outcome of the listing. *)
Lemma Init_run (k : k8s) (w : World) :
  match k8sutils.GetNodes client w with
  | (Err msg, w1) =>
      Init client k w = ((k, Some (ClientError msg)), w1, [mkEvent CallGetNodes (Some msg)])
  | (Ok listed, w1) =>
      Init client k w =
      ((mkK8s (nodes k ++
          ((λ n, scheduler.mkNode (v1.Name n) (Init_addrs n)
                   (if k8sutils.IsNodeMaster client n
                    then scheduler.NodeTypeMaster else scheduler.NodeTypeWorker))
           <$> v1.Items listed)), None),
       w1, [mkEvent CallGetNodes None])
  end.
Proof.
  unfold Init, bind, invoke, ret.
  destruct (k8sutils.GetNodes client w) as [[listed|msg] w1]; simpl.
  - by rewrite Init_nodes_acc.
  - done.
Qed.

(** C8. When the node listing fails, [Init] returns the client's error and
    the driver keeps the nodes it had, none added.  When the listing
    succeeds, [Init] returns no error and adds, after the nodes the driver
    already held (none for a driver that was never initialised), one node
    per listed cluster node, in order, named after it and typed Master or
    Worker by the client's predicate. *)
Theorem Init_snapshot (k : k8s) (w : World) :
  match k8sutils.GetNodes client w with
  | (Err msg, w1) =>
      Init client k w = ((k, Some (ClientError msg)), w1, [mkEvent CallGetNodes (Some msg)])
  | (Ok listed, w1) =>
      Init client k w =
      ((mkK8s (nodes k ++
          ((λ n, scheduler.mkNode (v1.Name n) (Init_addrs n)
                   (if k8sutils.IsNodeMaster client n
                    then scheduler.NodeTypeMaster else scheduler.NodeTypeWorker))
           <$> v1.Items listed)), None),
       w1, [mkEvent CallGetNodes None])
  end.
Proof. apply Init_run. Qed.

(** C10. After a successful listing, the node stored for the [i]-th listed
    cluster node carries exactly that node's addresses of type ExternalIP or
    InternalIP, in the order the cluster reported them; addresses of any
    other type are left out. *)
Theorem Init_addresses (k : k8s) (w w1 : World) (listed : v1.NodeList)
    (i : nat) (n : v1.Node) :
  k8sutils.GetNodes client w = (Ok listed, w1) →
  v1.Items listed !! i = Some n →
  ∃ node,
    nodes (value_of (Init client k) w).1 !! (length (nodes k) + i) = Some node ∧
    scheduler.Name node = v1.Name n ∧
    scheduler.Addresses node =
      v1.Address <$>
        filter (λ a, v1.Type_ a = v1.NodeExternalIP ∨ v1.Type_ a = v1.NodeInternalIP)
          (v1.Addresses (v1.Status n)).
Proof.
  intros Hlist Hi.
  pose proof (Init_run k w) as Hs. rewrite Hlist in Hs.
  unfold value_of. rewrite Hs. simpl.
  eexists. split.
  - rewrite lookup_app_r by lia.
    replace (length (nodes k) + i - length (nodes k)) with i by lia.
    rewrite list_lookup_fmap, Hi. reflexivity.
  - simpl. split; [done|]. apply Init_addrs_filter.
Qed.

End InitProofs.

Lemma Init_addresses_witness :
  ∃ node,
    nodes (value_of (Init mock.client (mkK8s [])) mock.fresh).1 !! (0 + 0) = Some node ∧
    scheduler.Name node = "master-0" ∧
    scheduler.Addresses node = ["10.0.0.1"; "54.1.2.3"].
Proof.
  exact (Init_addresses mock.client (mkK8s []) mock.fresh mock.fresh
           (v1.mkNodeList [mock.master0; mock.worker0]) 0 mock.master0
           eq_refl eq_refl).
Defined.

(** ** The loop bodies dispatch on the kind of the component *)

Section DispatchProofs.
Context {World : Type} (client : k8sutils.Client World).
Context (GoSyntax : ResourceObject → string).

Ltac run_body :=
  simpl; unfold bind, invoke, ret;
  repeat match goal with
  | |- context [let '(_, _) := ?f ?w in _] =>
      destruct (f w) as [[?|?] ?]; simpl
  end.

Ltac close_dispatch :=
  first [ by eexists
        | do 3 eexists; split; [reflexivity | simpl; naive_solver] ].

Ltac dispatch_cases x :=
  intros x ?; destruct x as [?|?|?|?]; run_body; close_dispatch.

Lemma Schedule_component_dispatches :
  dispatches (Schedule_component client GoSyntax) create_request.
Proof.
  intros [s o|s o] w; destruct o as [?|?|?|?]; run_body; close_dispatch.
Qed.

Lemma WaitForRunning_core_dispatches ctx :
  dispatches (WaitForRunning_core client GoSyntax ctx) validate_request.
Proof. dispatch_cases x. Qed.

Lemma Destroy_core_dispatches ctx :
  dispatches (Destroy_core client GoSyntax ctx) delete_request.
Proof. dispatch_cases x. Qed.

Lemma WaitForDestroy_core_dispatches ctx :
  dispatches (WaitForDestroy_core client GoSyntax ctx) validate_terminated_request.
Proof. dispatch_cases x. Qed.

Lemma InspectVolumes_storage_dispatches ctx :
  dispatches (InspectVolumes_storage client GoSyntax ctx) validate_storage_request.
Proof. dispatch_cases x. Qed.

Lemma DeleteVolumes_storage_dispatches ctx :
  dispatches (DeleteVolumes_storage client GoSyntax ctx) delete_storage_request.
Proof. dispatch_cases x. Qed.

(** Every error of a loop body is the operation's own kind of error and
    carries the application at hand. *)

Ltac error_cases x :=
  intros x w e; unfold value_of; destruct x as [?|?|?|?]; run_body;
  intros [= <-]; by eexists.

Lemma Schedule_component_error c w e :
  value_of (Schedule_component client GoSyntax c) w = Some e →
  attributed ErrFailedToScheduleApp (owner c) e.
Proof.
  revert w e. destruct c as [s o|s o]; simpl; revert o.
  - error_cases x.
  - error_cases x.
Qed.

Lemma WaitForRunning_core_error ctx x w e :
  value_of (WaitForRunning_core client GoSyntax ctx x) w = Some e →
  attributed ErrFailedToValidateApp (scheduler.App ctx) e.
Proof. revert x w e. error_cases x. Qed.

Lemma Destroy_core_error ctx x w e :
  value_of (Destroy_core client GoSyntax ctx x) w = Some e →
  attributed ErrFailedToDestroyApp (scheduler.App ctx) e.
Proof. revert x w e. error_cases x. Qed.

Lemma WaitForDestroy_core_error ctx x w e :
  value_of (WaitForDestroy_core client GoSyntax ctx x) w = Some e →
  attributed ErrFailedToValidateAppDestroy (scheduler.App ctx) e.
Proof. revert x w e. error_cases x. Qed.

Lemma InspectVolumes_storage_error ctx x w e :
  value_of (InspectVolumes_storage client GoSyntax ctx x) w = Some e →
  attributed ErrFailedToValidateStorage (scheduler.App ctx) e.
Proof. revert x w e. error_cases x. Qed.

Lemma DeleteVolumes_storage_error ctx x w e :
  value_of (DeleteVolumes_storage client GoSyntax ctx x) w = Some e →
  attributed ErrFailedToDestroyStorage (scheduler.App ctx) e.
Proof. revert x w e. error_cases x. Qed.

End DispatchProofs.

(** ** The trace is a true record of what the client was asked *)

Section ReplayProofs.
Context {World : Type} (client : k8sutils.Client World).
Context (GoSyntax : ResourceObject → string).
Context (fac : factory.Factory).

Lemma replays_app (t1 t2 : list Event) (w w1 w2 : World) :
  replays client t1 w w1 → replays client t2 w1 w2 →
  replays client (t1 ++ t2) w w2.
Proof.
  revert w. induction t1 as [|ev t1 IH]; intros w; simpl.
  - by intros ->.
  - intros [Hev H1] H2. split; [done|]. by apply IH.
Qed.

Lemma replays_app_inv (t1 t2 : list Event) (w w2 : World) :
  replays client (t1 ++ t2) w w2 →
  ∃ w1, replays client t1 w w1 ∧ replays client t2 w1 w2.
Proof.
  revert w. induction t1 as [|ev t1 IH]; intros w; simpl.
  - intros H. by exists w.
  - intros [Hev H]. destruct (IH _ H) as (w1 & H1 & H2). by exists w1.
Qed.

Lemma faithful_ret {A : Type} (a : A) : faithful client (ret a).
Proof. by intros w. Qed.

Lemma faithful_bind {A B : Type} (m : DriverM World A) (f : A → DriverM World B) :
  faithful client m → (∀ a, faithful client (f a)) → faithful client (bind m f).
Proof.
  intros Hm Hf w. specialize (Hm w). unfold trace_of, world_of, bind in *.
  destruct (m w) as [[a w1] t1]. specialize (Hf a w1).
  unfold trace_of, world_of in Hf.
  destruct (f a w1) as [[b w2] t2]. simpl in *. by eapply replays_app.
Qed.

Lemma faithful_invoke {A : Type} (c : Call) (f : World → result A * World) :
  (∀ w, perform client c w = outcome (f w)) → faithful client (invoke c f).
Proof.
  intros Hc w. unfold trace_of, world_of, invoke. specialize (Hc w).
  destruct (f w) as [r w1]. simpl. rewrite Hc. by split.
Qed.

Lemma faithful_for_range {A : Type} (body : A → DriverM World (option error))
    (xs : list A) :
  (∀ x, faithful client (body x)) → faithful client (for_range body xs).
Proof.
  intros Hbody. induction xs as [|x xs IH]; simpl.
  - apply faithful_ret.
  - apply faithful_bind; [apply Hbody|].
    intros [e|]; [apply faithful_ret|apply IH].
Qed.

(** The last request of a true record, when it failed: the client itself
    failed it, in the cluster the earlier requests left. *)
Lemma last_failed_performed (t : list Event) (w w' : World) (c : Call) (msg : string) :
  replays client t w w' →
  last t = Some (mkEvent c (Some msg)) →
  ∃ pre w0,
    t = pre ++ [mkEvent c (Some msg)] ∧ replays client pre w w0 ∧
    perform client c w0 = (Some msg, w').
Proof.
  intros Hrep Hlast.
  apply last_Some in Hlast as [pre ->].
  apply replays_app_inv in Hrep as (w0 & Hpre & Hev).
  exists pre, w0. split_and!; [done|done|].
  simpl in Hev. destruct Hev as [Hout ->].
  destruct (perform client c w0) as [fl w1]. simpl in *. by subst.
Qed.

Lemma outcome_failed {A : Type} (rw : result A * World) (msg : string) (w' : World) :
  outcome rw = (Some msg, w') → rw = (Err msg, w').
Proof. destruct rw as [[a|m] w1]; unfold outcome; simpl; intros [= <- <-]; done. Qed.

Ltac faithful_body :=
  repeat first
    [ apply faithful_ret
    | apply faithful_invoke; intros ?; reflexivity
    | apply faithful_bind; [|intros [?|?]] ].

Lemma Schedule_storage_faithful s o :
  faithful client (Schedule_storage client GoSyntax s o).
Proof. destruct o; simpl; faithful_body. Qed.

Lemma Schedule_core_faithful s o :
  faithful client (Schedule_core client GoSyntax s o).
Proof. destruct o; simpl; faithful_body. Qed.

Lemma WaitForRunning_core_faithful ctx o :
  faithful client (WaitForRunning_core client GoSyntax ctx o).
Proof. destruct o; simpl; faithful_body. Qed.

Lemma Destroy_core_faithful ctx o :
  faithful client (Destroy_core client GoSyntax ctx o).
Proof. destruct o; simpl; faithful_body. Qed.

Lemma WaitForDestroy_core_faithful ctx o :
  faithful client (WaitForDestroy_core client GoSyntax ctx o).
Proof. destruct o; simpl; faithful_body. Qed.

Lemma InspectVolumes_storage_faithful ctx o :
  faithful client (InspectVolumes_storage client GoSyntax ctx o).
Proof. destruct o; simpl; faithful_body. Qed.

Lemma DeleteVolumes_storage_faithful ctx o :
  faithful client (DeleteVolumes_storage client GoSyntax ctx o).
Proof. destruct o; simpl; faithful_body. Qed.

Lemma WaitForRunning_faithful ctx : faithful client (WaitForRunning client GoSyntax ctx).
Proof. apply faithful_for_range, WaitForRunning_core_faithful. Qed.

Lemma Destroy_faithful ctx : faithful client (Destroy client GoSyntax ctx).
Proof. apply faithful_for_range, Destroy_core_faithful. Qed.

Lemma WaitForDestroy_faithful ctx : faithful client (WaitForDestroy client GoSyntax ctx).
Proof. apply faithful_for_range, WaitForDestroy_core_faithful. Qed.

Lemma InspectVolumes_faithful ctx : faithful client (InspectVolumes client GoSyntax ctx).
Proof. apply faithful_for_range, InspectVolumes_storage_faithful. Qed.

Lemma DeleteVolumes_faithful ctx : faithful client (DeleteVolumes client GoSyntax ctx).
Proof. apply faithful_for_range, DeleteVolumes_storage_faithful. Qed.

Lemma Schedule_specs_faithful instanceID specs contexts :
  faithful client (Schedule_specs client GoSyntax instanceID specs contexts).
Proof.
  revert contexts. induction specs as [|s specs IH]; intros contexts; simpl.
  - apply faithful_ret.
  - apply faithful_bind; [apply faithful_for_range, Schedule_storage_faithful|].
    intros [e|]; [apply faithful_ret|].
    apply faithful_bind; [apply faithful_for_range, Schedule_core_faithful|].
    intros [e|]; [apply faithful_ret|apply IH].
Qed.

Lemma Schedule_faithful instanceID options :
  faithful client (Schedule client GoSyntax fac instanceID options).
Proof.
  unfold Schedule. destruct (Schedule_specs_of fac options).
  - apply faithful_ret.
  - apply Schedule_specs_faithful.
Qed.

Lemma GetVolumes_loop_faithful ctx storages volumes :
  faithful client (GetVolumes_loop client ctx storages volumes).
Proof.
  revert volumes. induction storages as [|o storages IH]; intros volumes; simpl.
  - apply faithful_ret.
  - destruct o; try apply IH.
    apply faithful_bind; [apply faithful_invoke; intros ?; reflexivity|].
    intros [vol|msg]; [apply IH|apply faithful_ret].
Qed.

Lemma GetVolumes_faithful ctx : faithful client (GetVolumes client ctx).
Proof. apply GetVolumes_loop_faithful. Qed.

Lemma GetVolumeParameters_loop_faithful ctx storages acc :
  faithful client (GetVolumeParameters_loop client ctx storages acc).
Proof.
  revert acc. induction storages as [|o storages IH]; intros acc; simpl.
  - apply faithful_ret.
  - destruct o; try apply IH.
    apply faithful_bind; [apply faithful_invoke; intros ?; reflexivity|].
    intros [vol|msg]; [|apply faithful_ret].
    apply faithful_bind; [apply faithful_invoke; intros ?; reflexivity|].
    intros [ps|msg]; [apply IH|apply faithful_ret].
Qed.

Lemma GetVolumeParameters_faithful ctx : faithful client (GetVolumeParameters client ctx).
Proof. apply GetVolumeParameters_loop_faithful. Qed.

End ReplayProofs.

(** ** Building fail-fast runs *)

Lemma fail_fast_stop {A : Type} (req : A → option Call) x xs c msg e :
  req x = Some c →
  fail_fast req (x :: xs) (Some e) [mkEvent c (Some msg)].
Proof.
  intros Hreq. exists [], x, xs, [], [mkEvent c (Some msg)].
  split_and!; [done|done|constructor|].
  unfold failed_attempt. rewrite Hreq. by exists msg.
Qed.

Lemma fail_fast_step {A : Type} (req : A → option Call) x xs c r t :
  req x = Some c →
  fail_fast req xs r t →
  fail_fast req (x :: xs) r (mkEvent c None :: t).
Proof.
  intros Hreq Hff. destruct r as [e|]; simpl in *.
  - destruct Hff as (pre & y & post & tpre & tx & -> & -> & Hs & Hf).
    exists (x :: pre), y, post, (mkEvent c None :: tpre), tx.
    split_and!; [done|done| |done]. constructor; [done|exact Hs].
  - constructor; [done|exact Hff].
Qed.

(** ** WaitForRunning, Destroy, GetVolumes *)

Section LifecycleProofs.
Context {World : Type} (client : k8sutils.Client World).
Context (GoSyntax : ResourceObject → string).

(** C5. [WaitForRunning] has the client validate the core components of
    the context's specification in their order, each by a call of
    [ValidateDeployement] made in the cluster the earlier calls left.  A
    call that returns no error validated every one of them, the client
    answering without an error each time.  A call that returns an error
    validated with success the components before some component, the
    attempt on that one failed (the client answered with an error, or the
    component is no deployment), nothing was asked for the components
    after it, and the error is [FailedToValidateApp] carrying the context's
    application and a cause.  The trace is a true record: its requests are
    the calls the client received, its outcomes the client's answers, and
    the cluster after the call is the one those calls left. *)
Theorem WaitForRunning_fail_fast (ctx : scheduler.Context) (w : World) :
  fail_fast validate_request
    (spec.Core (scheduler.App ctx) (scheduler.UID ctx))
    (value_of (WaitForRunning client GoSyntax ctx) w)
    (trace_of (WaitForRunning client GoSyntax ctx) w) ∧
  match value_of (WaitForRunning client GoSyntax ctx) w with
  | None => True
  | Some e => attributed ErrFailedToValidateApp (scheduler.App ctx) e
  end ∧
  replays client (trace_of (WaitForRunning client GoSyntax ctx) w) w
    (world_of (WaitForRunning client GoSyntax ctx) w).
Proof.
  split_and!.
  - apply for_range_fail_fast, WaitForRunning_core_dispatches.
  - destruct (value_of _ w) as [e|] eqn:Hv; [|done].
    apply for_range_error in Hv as (x & w0 & _ & Hx).
    by eapply WaitForRunning_core_error.
  - apply WaitForRunning_faithful.
Qed.

(** C6. [Destroy] has the client delete the core components of the
    context's specification in their order, each by a call of
    [DeleteDeployment] made in the cluster the earlier calls left.  When it
    returns an error, the components before some component were deleted,
    the client answering without an error, the attempt on that one failed,
    no request at all was made for the components after it, and the error
    is [FailedToDestroyApp] carrying the context's application.  The trace
    is a true record: the cluster after the call is the one left by the
    deletions made and by the failed attempt, with nothing retried and
    nothing undone. *)
Theorem Destroy_fail_fast (ctx : scheduler.Context) (w : World) :
  fail_fast delete_request
    (spec.Core (scheduler.App ctx) (scheduler.UID ctx))
    (value_of (Destroy client GoSyntax ctx) w)
    (trace_of (Destroy client GoSyntax ctx) w) ∧
  match value_of (Destroy client GoSyntax ctx) w with
  | None => True
  | Some e => attributed ErrFailedToDestroyApp (scheduler.App ctx) e
  end ∧
  replays client (trace_of (Destroy client GoSyntax ctx) w) w
    (world_of (Destroy client GoSyntax ctx) w).
Proof.
  split_and!.
  - apply for_range_fail_fast, Destroy_core_dispatches.
  - destruct (value_of _ w) as [e|] eqn:Hv; [|done].
    apply for_range_error in Hv as (x & w0 & _ & Hx).
    by eapply Destroy_core_error.
  - apply Destroy_faithful.
Qed.

Lemma claims_of_cons_claim obj rest :
  claims_of (PersistentVolumeClaimObj obj :: rest) = obj :: claims_of rest.
Proof. reflexivity. Qed.

Lemma GetVolumes_loop_spec (ctx : scheduler.Context) (storages : list ResourceObject)
    (volumes : list string) (w : World) :
  fail_fast volume_request (claims_of storages)
    (value_of (GetVolumes_loop client ctx storages volumes) w).2
    (trace_of (GetVolumes_loop client ctx storages volumes) w) ∧
  match (value_of (GetVolumes_loop client ctx storages volumes) w).2 with
  | None =>
      ∃ vs, lookups client (claims_of storages) w = Ok <$> vs ∧
            (value_of (GetVolumes_loop client ctx storages volumes) w).1 = volumes ++ vs
  | Some e =>
      (value_of (GetVolumes_loop client ctx storages volumes) w).1 = [] ∧
      attributed ErrFailedToGetVolumesForApp (scheduler.App ctx) e ∧
      ∃ vs msg rest,
        lookups client (claims_of storages) w = (Ok <$> vs) ++ Err msg :: rest
  end.
Proof.
  unfold value_of, trace_of. revert volumes w.
  induction storages as [|o storages IH]; intros volumes w.
  - simpl. split; [constructor|]. exists []. by rewrite app_nil_r.
  - destruct o as [sc|obj|dep|tag]; try exact (IH volumes w).
    rewrite claims_of_cons_claim. simpl GetVolumes_loop. simpl lookups.
    unfold bind, invoke.
    destruct (k8sutils.GetVolumeForPersistentVolumeClaim client obj w)
      as [[vol|msg] w1]; simpl.
    + specialize (IH (volumes ++ [vol]) w1).
      destruct (GetVolumes_loop client ctx storages (volumes ++ [vol]) w1)
        as [[[vols err] w2] t2]. simpl in *.
      destruct IH as [Hff Hrest]. split.
      * by apply fail_fast_step.
      * destruct err as [e|].
        -- destruct Hrest as (-> & Hattr & vs & m & rest & ->).
           split_and!; [done|done|]. by exists (vol :: vs), m, rest.
        -- destruct Hrest as (vs & -> & ->).
           exists (vol :: vs). by rewrite <- app_assoc.
    + split.
      * by apply (fail_fast_stop volume_request obj (claims_of storages) _ msg
                    (ClientError msg)).
      * split_and!; [done|by eexists|].
        by exists [], msg, (lookups client (claims_of storages) w1).
Qed.


End LifecycleProofs.

(** ** The registry *)

Lemma factory_Get_registered (reg : factory.Registry) (key : string) :
  factory.registered reg key →
  ∃ s, factory.registry_Get reg key = inr s ∧ s ∈ reg ∧ spec.Key s = key.
Proof.
  unfold factory.registered, factory.registry_Get. intros Hin.
  apply list_elem_of_fmap in Hin as (s0 & -> & Hs0).
  destruct (find _ reg) as [s|] eqn:Hfind.
  - apply find_some in Hfind as [Hin Heq].
    apply String.eqb_eq in Heq. apply list_elem_of_In in Hin. by exists s.
  - exfalso. apply list_elem_of_In in Hs0.
    pose proof (find_none _ _ Hfind _ Hs0) as Hne. simpl in Hne.
    by rewrite String.eqb_refl in Hne.
Qed.

Lemma factory_Get_unknown (reg : factory.Registry) (key : string) :
  ¬ factory.registered reg key →
  factory.registry_Get reg key = inl (ErrUnknownAppKind key).
Proof.
  unfold factory.registered, factory.registry_Get. intros Hnot.
  destruct (find _ reg) as [s|] eqn:Hfind; [|done].
  exfalso. apply Hnot.
  apply find_some in Hfind as [Hin Heq].
  apply String.eqb_eq in Heq. apply list_elem_of_In in Hin.
  apply list_elem_of_fmap. by exists s.
Qed.


(** ** Schedule *)

Section ScheduleProofs.
Context {World : Type} (client : k8sutils.Client World).
Context (GoSyntax : ResourceObject → string).
Context (fac : factory.Factory).

Lemma Schedule_resolve_unknown (registry : factory.Registry) (keys : list string)
    (acc : list spec.AppSpec) (key : string) :
  key ∈ keys → ¬ factory.registered registry key →
  ∃ key', key' ∈ keys ∧ ¬ factory.registered registry key' ∧
          Schedule_resolve (factory.of_registry registry) keys acc
            = inl (ErrUnknownAppKind key').
Proof.
  revert acc. induction keys as [|k keys IH]; intros acc Hin Hnot.
  - by apply elem_of_nil in Hin.
  - simpl.
    destruct (decide (factory.registered registry k)) as [Hk|Hk].
    + destruct (factory_Get_registered _ _ Hk) as (s & -> & _).
      apply elem_of_cons in Hin as [->|Hin]; [done|].
      destruct (IH (acc ++ [s]) Hin Hnot) as (key' & Hin' & Hnot' & ->).
      exists key'. split_and!; [by right|done|done].
    + rewrite (factory_Get_unknown _ _ Hk).
      exists k. split_and!; [by left|done|done].
Qed.

(** The loop over the specifications is one fail-fast loop over the work
    list; the contexts are kept only when it ends without an error. *)
Lemma Schedule_specs_run (instanceID : string) (specs : list spec.AppSpec)
    (contexts : list scheduler.Context) (w : World) :
  Schedule_specs client GoSyntax instanceID specs contexts w =
  let '(r, w', t) :=
    for_range (Schedule_component client GoSyntax) (work instanceID specs) w in
  (match r with
   | None => (contexts ++ (scheduler.mkContext instanceID <$> specs), None)
   | Some e => ([], Some e)
   end, w', t).
Proof.
  revert contexts w. induction specs as [|s specs IH]; intros contexts w.
  - simpl. unfold ret. by rewrite app_nil_r.
  - unfold work. rewrite fmap_cons. simpl concat. fold (work instanceID specs).
    unfold components. rewrite <- app_assoc.
    rewrite for_range_app, for_range_fmap.
    simpl Schedule_specs. unfold bind at 1.
    change (λ b, Schedule_component client GoSyntax (StorageOf s b))
      with (Schedule_storage client GoSyntax s).
    destruct (for_range (Schedule_storage client GoSyntax s) _ w)
      as [[[e|] w1] t1]; simpl.
    { unfold ret. by rewrite app_nil_r. }
    rewrite for_range_app, for_range_fmap. unfold bind at 1.
    change (λ b, Schedule_component client GoSyntax (CoreOf s b))
      with (Schedule_core client GoSyntax s).
    destruct (for_range (Schedule_core client GoSyntax s) _ w1)
      as [[[e|] w2] t2]; simpl.
    { unfold ret. by rewrite app_nil_r. }
    rewrite IH.
    destruct (for_range (Schedule_component client GoSyntax) (work instanceID specs) w2)
      as [[[e|] w3] t3]; simpl.
    + by rewrite app_assoc.
    + by rewrite <- !app_assoc.
Qed.

Lemma Schedule_run (instanceID : string) (options : scheduler.ScheduleOptions)
    (specs : list spec.AppSpec) (w : World) :
  Schedule_specs_of fac options = inr specs →
  Schedule client GoSyntax fac instanceID options w =
  let '(r, w', t) :=
    for_range (Schedule_component client GoSyntax) (work instanceID specs) w in
  (match r with
   | None => (scheduler.mkContext instanceID <$> specs, None)
   | Some e => ([], Some e)
   end, w', t).
Proof.
  intros Hs. unfold Schedule. rewrite Hs. apply Schedule_specs_run.
Qed.

Lemma components_owner (instanceID : string) (s : spec.AppSpec) (c : Component) :
  c ∈ components instanceID s → owner c = s.
Proof.
  unfold components. intros Hc.
  apply elem_of_app in Hc as [Hc|Hc];
    apply list_elem_of_fmap in Hc as (o & -> & _); done.
Qed.

Lemma served_app {A : Type} (req : A → option Call) xs ys t1 t2 :
  served req xs t1 → served req ys t2 → served req (xs ++ ys) (t1 ++ t2).
Proof. apply Forall2_app. Qed.

(** A run of [Schedule] only ever asks the client to create. *)
Lemma fail_fast_creates (xs : list Component) (r : option error) (t : list Event) :
  fail_fast create_request xs r t →
  Forall (λ ev, is_create (call ev) = true) t.
Proof.
  assert (∀ c k, create_request c = Some k → is_create k = true) as Hk.
  { intros [s o|s o] k; destruct o; simpl; intros [= <-]; done. }
  assert (∀ ys u, served create_request ys u →
                  Forall (λ ev, is_create (call ev) = true) u) as Hserved.
  { intros ys u Hs. induction Hs as [|y ev ys u [Hy _] _ IH]; constructor; eauto. }
  destruct r as [e|]; simpl; [|by apply Hserved].
  intros (pre & x & post & tpre & tx & _ & -> & Hs & Hf).
  apply Forall_app. split; [by eapply Hserved|].
  unfold failed_attempt in Hf.
  destruct (create_request x) as [k|] eqn:Hx.
  - destruct Hf as [msg ->]. constructor; [|constructor]. simpl. eauto.
  - subst tx. constructor.
Qed.

(** Where a failing run over the work list stopped: the specifications
    before some specification were served whole, and the run failed inside
    that one. *)
Lemma work_failure (instanceID : string) (specs : list spec.AppSpec) (w : World)
    (e : error) :
  value_of (for_range (Schedule_component client GoSyntax) (work instanceID specs)) w
    = Some e →
  ∃ done s rest tdone ts,
    specs = done ++ s :: rest ∧
    attributed ErrFailedToScheduleApp s e ∧
    trace_of (for_range (Schedule_component client GoSyntax) (work instanceID specs)) w
      = tdone ++ ts ∧
    served create_request (work instanceID done) tdone ∧
    fail_fast create_request (components instanceID s) (Some e) ts.
Proof.
  unfold value_of, trace_of. revert w.
  induction specs as [|s specs IH]; intros w; [done|].
  unfold work. rewrite fmap_cons. simpl concat. fold (work instanceID specs).
  rewrite for_range_app.
  pose proof (for_range_fail_fast (Schedule_component client GoSyntax) create_request
                (components instanceID s) w
                (Schedule_component_dispatches client GoSyntax)) as Hff.
  pose proof (for_range_error (Schedule_component client GoSyntax)
                (components instanceID s) w) as Herr.
  unfold value_of, trace_of in Hff, Herr.
  destruct (for_range _ (components instanceID s) w) as [[[e1|] w1] t1]; simpl in *.
  - intros [= ->].
    destruct (Herr e eq_refl) as (x & w0 & Hx & Hv).
    apply Schedule_component_error in Hv.
    rewrite (components_owner _ _ _ Hx) in Hv.
    exists [], s, specs, [], t1. split_and!; [done|done|done|constructor|done].
  - specialize (IH w1).
    destruct (for_range _ (work instanceID specs) w1) as [[r w2] t2]; simpl in *.
    intros ->.
    destruct (IH eq_refl) as (done & s' & rest & tdone & ts & -> & Hattr & -> & Hs & Hf).
    exists (s :: done), s', rest, (t1 ++ tdone), ts.
    split_and!; [done|done|by rewrite app_assoc| |done].
    unfold work. rewrite fmap_cons. simpl concat. by apply served_app.
Qed.

(** A run of [Schedule] is a fail-fast run over the work list. *)
Lemma Schedule_fail_fast (instanceID : string) (options : scheduler.ScheduleOptions)
    (w : World) :
  match Schedule_specs_of fac options with
  | inl err =>
      Schedule client GoSyntax fac instanceID options w = (([], Some err), w, [])
  | inr specs =>
      fail_fast create_request (work instanceID specs)
        (value_of (Schedule client GoSyntax fac instanceID options) w).2
        (trace_of (Schedule client GoSyntax fac instanceID options) w)
  end.
Proof.
  destruct (Schedule_specs_of fac options) as [err|specs] eqn:Hs.
  - unfold Schedule. by rewrite Hs.
  - unfold value_of, trace_of. rewrite (Schedule_run _ _ specs w Hs).
    pose proof (for_range_fail_fast (Schedule_component client GoSyntax) create_request
                  (work instanceID specs) w
                  (Schedule_component_dispatches client GoSyntax)) as Hff.
    unfold value_of, trace_of in Hff.
    destruct (for_range _ (work instanceID specs) w) as [[[e|] w1] t1]; exact Hff.
Qed.



(** C9. When the options list keys and one of them is not registered,
    [Schedule] returns the factory's [UnknownAppKind] error for the first
    such key with nil contexts; the cluster is as it was and no request was
    made to the client, for any key of the list. *)
Theorem Schedule_unknown_key (registry : factory.Registry) (instanceID : string)
    (options : scheduler.ScheduleOptions) (key : string) (w : World) :
  key ∈ scheduler.AppKeys options →
  ¬ factory.registered registry key →
  ∃ key',
    key' ∈ scheduler.AppKeys options ∧ ¬ factory.registered registry key' ∧
    Schedule client GoSyntax (factory.of_registry registry) instanceID options w
      = (([], Some (ErrUnknownAppKind key')), w, []).
Proof.
  intros Hin Hnot.
  destruct (Schedule_resolve_unknown registry (scheduler.AppKeys options) [] key Hin Hnot)
    as (key' & Hin' & Hnot' & Hres).
  exists key'. split_and!; [done|done|].
  unfold Schedule, Schedule_specs_of.
  destruct (scheduler.AppKeys options) as [|k keys] eqn:Hkeys.
  - by apply elem_of_nil in Hin.
  - simpl length. simpl Nat.ltb. cbv iota. by rewrite Hres.
Qed.

(** C1 (amended). A [Schedule] call that resolved its specifications and
    then returns an error returns a nil list of contexts, whatever the
    number of specifications that were materialized whole before the
    failure.  The error is [FailedToScheduleApp] carrying the specification
    in which the failure happened; the specifications before it were
    created whole.  Nothing created is undone: the call made nothing but
    create requests, the trace is a true record of the calls the client
    received, and the cluster after the call is the one those creates
    left. *)
Theorem Schedule_failure_returns_nil (instanceID : string)
    (options : scheduler.ScheduleOptions) (specs : list spec.AppSpec) (w : World)
    (e : error) :
  Schedule_specs_of fac options = inr specs →
  (value_of (Schedule client GoSyntax fac instanceID options) w).2 = Some e →
  (value_of (Schedule client GoSyntax fac instanceID options) w).1 = [] ∧
  Forall (λ ev, is_create (call ev) = true)
    (trace_of (Schedule client GoSyntax fac instanceID options) w) ∧
  replays client
    (trace_of (Schedule client GoSyntax fac instanceID options) w) w
    (world_of (Schedule client GoSyntax fac instanceID options) w) ∧
  ∃ done s rest tdone ts,
    specs = done ++ s :: rest ∧
    attributed ErrFailedToScheduleApp s e ∧
    trace_of (Schedule client GoSyntax fac instanceID options) w = tdone ++ ts ∧
    served create_request (work instanceID done) tdone ∧
    fail_fast create_request (components instanceID s) (Some e) ts.
Proof.
  intros Hs He.
  pose proof (Schedule_faithful client GoSyntax fac instanceID options w) as Hrep.
  pose proof (Schedule_fail_fast instanceID options w) as Hff. rewrite Hs in Hff.
  apply fail_fast_creates in Hff.
  pose proof (work_failure instanceID specs w) as Hw.
  revert He Hff Hw Hrep. unfold value_of, trace_of, world_of.
  rewrite (Schedule_run _ _ specs w Hs).
  destruct (for_range _ (work instanceID specs) w) as [[[e1|] w1] t1]; simpl; [|done].
  intros [= ->] Hff Hw Hrep. split_and!; [done|done|done|]. by apply Hw.
Qed.

End ScheduleProofs.

(** ** Components of a kind an operation has no case for *)

Section KindProofs.
Context {World : Type} (client : k8sutils.Client World).
Context (GoSyntax : ResourceObject → string).
Context (fac : factory.Factory).

Ltac reject_cases :=
  intros x w; destruct x as [?|?|?|?]; simpl; (done || by intros _).

Lemma never_skips_for_range
    (body : scheduler.Context → ResourceObject → DriverM World (option error))
    (parts : scheduler.Context → list ResourceObject)
    (req : ResourceObject → option Call) (mk : spec.AppSpec → string → error) :
  (∀ ctx, dispatches (body ctx) req) →
  (∀ ctx x w e, value_of (body ctx x) w = Some e → attributed mk (scheduler.App ctx) e) →
  never_skips (λ ctx, for_range (body ctx) (parts ctx)) parts req mk.
Proof.
  intros Hd Herr ctx w x Hx Hreq.
  destruct (for_range_unsupported (body ctx) req (parts ctx) w x (Hd ctx) Hx Hreq)
    as [e He].
  exists e. split; [done|].
  apply for_range_error in He as (y & w0 & _ & Hy). by eapply Herr.
Qed.

Lemma GetVolumes_loop_skips (ctx : scheduler.Context) (storages : list ResourceObject)
    (volumes : list string) (w : World) :
  GetVolumes_loop client ctx storages volumes w =
  GetVolumes_loop client ctx (PersistentVolumeClaimObj <$> claims_of storages) volumes w.
Proof.
  revert volumes w. induction storages as [|o storages IH]; intros volumes w; [done|].
  destruct o as [sc|obj|dep|tag]; try exact (IH volumes w).
  rewrite claims_of_cons_claim, fmap_cons. simpl. unfold bind.
  destruct (invoke _ _ w) as [[[vol|msg] w1] t1]; [|done].
  by rewrite IH.
Qed.

Lemma GetVolumeParameters_loop_skips (ctx : scheduler.Context)
    (storages : list ResourceObject) (acc : gmap string (gmap string string))
    (w : World) :
  GetVolumeParameters_loop client ctx storages acc w =
  GetVolumeParameters_loop client ctx
    (PersistentVolumeClaimObj <$> claims_of storages) acc w.
Proof.
  revert acc w. induction storages as [|o storages IH]; intros acc w; [done|].
  destruct o as [sc|obj|dep|tag]; try exact (IH acc w).
  rewrite claims_of_cons_claim, fmap_cons. simpl. unfold bind.
  destruct (invoke _ _ w) as [[[vol|msg] w1] t1]; [|done].
  destruct (invoke _ _ w1) as [[[ps|msg] w2] t2]; [|done].
  by rewrite IH.
Qed.

(** C2 (amended). [Schedule], [WaitForRunning], [Destroy], [WaitForDestroy],
    [InspectVolumes] and [DeleteVolumes] never skip a component of a kind
    they have no case for: reaching one ends the call, without a request to
    the client, with the operation's own kind of error
    ([FailedToScheduleApp], [FailedToValidateApp], [FailedToDestroyApp],
    [FailedToValidateAppDestroy], [FailedToValidateStorage],
    [FailedToDestroyStorage]), which carries the owning application and a
    cause that describes the component; and a call on components that
    include such a one always returns an error of that kind.
    [GetVolumes] and [GetVolumeParameters] act on the persistent volume
    claims alone: they behave as if the storage components of every other
    kind were not there. *)
Theorem unsupported_kinds :
  rejects_unsupported (Schedule_component client GoSyntax) create_request
    (λ c, ErrFailedToScheduleApp (owner c)
            match c with
            | StorageOf _ o =>
                "Failed to create unsupported storage component: " +:+ GoSyntax o +:+ "."
            | CoreOf _ o =>
                "Failed to create unsupported core component: " +:+ GoSyntax o +:+ "."
            end) ∧
  (∀ instanceID options specs w c,
     Schedule_specs_of fac options = inr specs →
     c ∈ work instanceID specs → create_request c = None →
     ∃ e s,
       (value_of (Schedule client GoSyntax fac instanceID options) w).2 = Some e ∧
       s ∈ specs ∧ attributed ErrFailedToScheduleApp s e) ∧
  (∀ ctx,
     rejects_unsupported (WaitForRunning_core client GoSyntax ctx) validate_request
       (λ o, ErrFailedToValidateApp (scheduler.App ctx)
          ("Failed to validate unsupported core component: " +:+ GoSyntax o +:+ "."))) ∧
  never_skips (WaitForRunning client GoSyntax) context_core validate_request
    ErrFailedToValidateApp ∧
  (∀ ctx,
     rejects_unsupported (Destroy_core client GoSyntax ctx) delete_request
       (λ o, ErrFailedToDestroyApp (scheduler.App ctx)
          ("Failed to destroy unsupported core component: " +:+ GoSyntax o +:+ "."))) ∧
  never_skips (Destroy client GoSyntax) context_core delete_request
    ErrFailedToDestroyApp ∧
  (∀ ctx,
     rejects_unsupported (WaitForDestroy_core client GoSyntax ctx)
       validate_terminated_request
       (λ o, ErrFailedToValidateAppDestroy (scheduler.App ctx)
          ("Failed to validate destory of unsupported core component: "
           +:+ GoSyntax o +:+ "."))) ∧
  never_skips (WaitForDestroy client GoSyntax) context_core validate_terminated_request
    ErrFailedToValidateAppDestroy ∧
  (∀ ctx,
     rejects_unsupported (InspectVolumes_storage client GoSyntax ctx)
       validate_storage_request
       (λ o, ErrFailedToValidateStorage (scheduler.App ctx)
          ("Failed to validate unsupported storage component: " +:+ GoSyntax o +:+ "."))) ∧
  never_skips (InspectVolumes client GoSyntax) context_storage validate_storage_request
    ErrFailedToValidateStorage ∧
  (∀ ctx,
     rejects_unsupported (DeleteVolumes_storage client GoSyntax ctx)
       delete_storage_request
       (λ o, ErrFailedToDestroyStorage (scheduler.App ctx)
          ("Failed to destroy unsupported storage component: " +:+ GoSyntax o +:+ "."))) ∧
  never_skips (DeleteVolumes client GoSyntax) context_storage delete_storage_request
    ErrFailedToDestroyStorage ∧
  (∀ ctx w,
     GetVolumes client ctx w =
     GetVolumes_loop client ctx
       (PersistentVolumeClaimObj <$> claims_of (context_storage ctx)) [] w) ∧
  (∀ ctx w,
     GetVolumeParameters client ctx w =
     GetVolumeParameters_loop client ctx
       (PersistentVolumeClaimObj <$> claims_of (context_storage ctx)) ∅ w).
Proof.
  split_and!.
  - intros [s o|s o] w; destruct o as [?|?|?|?]; simpl; (done || by intros _).
  - intros instanceID options specs w c Hs Hc Hreq.
    destruct (for_range_unsupported (Schedule_component client GoSyntax) create_request
                (work instanceID specs) w c
                (Schedule_component_dispatches client GoSyntax) Hc Hreq) as [e He].
    destruct (work_failure client GoSyntax instanceID specs w e He)
      as (done & s & rest & _ & _ & -> & Hattr & _).
    exists e, s. split_and!; [|apply elem_of_app; right; by left|done].
    revert He. unfold value_of. rewrite (Schedule_run _ _ _ _ _ _ w Hs).
    destruct (for_range _ (work instanceID (done ++ s :: rest)) w) as [[r w1] t1].
    simpl. by intros ->.
  - intros ctx. reject_cases.
  - apply (never_skips_for_range (WaitForRunning_core client GoSyntax)).
    + apply WaitForRunning_core_dispatches.
    + apply WaitForRunning_core_error.
  - intros ctx. reject_cases.
  - apply (never_skips_for_range (Destroy_core client GoSyntax)).
    + apply Destroy_core_dispatches.
    + apply Destroy_core_error.
  - intros ctx. reject_cases.
  - apply (never_skips_for_range (WaitForDestroy_core client GoSyntax)).
    + apply WaitForDestroy_core_dispatches.
    + apply WaitForDestroy_core_error.
  - intros ctx. reject_cases.
  - apply (never_skips_for_range (InspectVolumes_storage client GoSyntax)).
    + apply InspectVolumes_storage_dispatches.
    + apply InspectVolumes_storage_error.
  - intros ctx. reject_cases.
  - apply (never_skips_for_range (DeleteVolumes_storage client GoSyntax)).
    + apply DeleteVolumes_storage_dispatches.
    + apply DeleteVolumes_storage_error.
  - intros ctx w. apply GetVolumes_loop_skips.
  - intros ctx w. apply GetVolumeParameters_loop_skips.
Qed.

End KindProofs.

(** ** The driver on the small cluster *)


(** The second key of the options is not registered. *)
Lemma Schedule_unknown_key_witness :
  ∃ key',
    key' ∈ ["echo"; "redis"] ∧ ¬ factory.registered [mock.echo; mock.postgres] key' ∧
    Schedule mock.client mock.GoSyntax
      (factory.of_registry [mock.echo; mock.postgres]) "run-1"
      (scheduler.mkScheduleOptions ["echo"; "redis"]) mock.fresh
      = (([], Some (ErrUnknownAppKind key')), mock.fresh, []).
Proof.
  apply (Schedule_unknown_key mock.client mock.GoSyntax [mock.echo; mock.postgres]
           "run-1" (scheduler.mkScheduleOptions ["echo"; "redis"]) "redis" mock.fresh).
  - simpl. apply (bool_decide_unpack _). vm_compute. exact I.
  - apply (bool_decide_eq_false_1 _). vm_compute. reflexivity.
Defined.

(** The key "echo" twice: the second copy fails on its first component,
    which the first copy has already created; what the first copy created
    is still in the cluster. *)
Lemma Schedule_failure_returns_nil_witness :
  (value_of (Schedule mock.client mock.GoSyntax (factory.of_registry [mock.echo]) "run-1"
               (scheduler.mkScheduleOptions ["echo"; "echo"])) mock.fresh).1 = [] ∧
  Forall (λ ev, is_create (call ev) = true)
    (trace_of (Schedule mock.client mock.GoSyntax (factory.of_registry [mock.echo]) "run-1"
                 (scheduler.mkScheduleOptions ["echo"; "echo"])) mock.fresh) ∧
  replays mock.client
    (trace_of (Schedule mock.client mock.GoSyntax (factory.of_registry [mock.echo]) "run-1"
                 (scheduler.mkScheduleOptions ["echo"; "echo"])) mock.fresh)
    mock.fresh
    (mock.mkCluster true ["pvc/echo-data-run-1"; "deploy/echo-run-1"]
       [mock.master0; mock.worker0]) ∧
  ∃ done s rest tdone ts,
    [mock.echo; mock.echo] = done ++ s :: rest ∧
    attributed ErrFailedToScheduleApp s
      (ErrFailedToScheduleApp mock.echo
         "Failed to create PVC: echo-data-run-1. Err: already exists: pvc/echo-data-run-1") ∧
    trace_of (Schedule mock.client mock.GoSyntax (factory.of_registry [mock.echo]) "run-1"
                (scheduler.mkScheduleOptions ["echo"; "echo"])) mock.fresh
      = tdone ++ ts ∧
    served create_request (work "run-1" done) tdone ∧
    fail_fast create_request (components "run-1" s)
      (Some (ErrFailedToScheduleApp mock.echo
         "Failed to create PVC: echo-data-run-1. Err: already exists: pvc/echo-data-run-1"))
      ts.
Proof.
  apply (Schedule_failure_returns_nil mock.client mock.GoSyntax
           (factory.of_registry [mock.echo]) "run-1"
           (scheduler.mkScheduleOptions ["echo"; "echo"]) [mock.echo; mock.echo]
           mock.fresh).
  - reflexivity.
  - reflexivity.
Defined.

(** C1, as stated, fails: the key "echo" twice on a fresh cluster.  The
    first copy is materialized whole (its claim and its deployment are
    created), the second fails on its claim, and [Schedule] returns
    [FailedToScheduleApp] with a list of no contexts, not of one. *)
Lemma Schedule_partial_result_counterexample :
  let run := Schedule mock.client mock.GoSyntax (factory.of_registry [mock.echo]) "run-1"
               (scheduler.mkScheduleOptions ["echo"; "echo"]) mock.fresh in
  run.1.1.2 = Some (ErrFailedToScheduleApp mock.echo
    "Failed to create PVC: echo-data-run-1. Err: already exists: pvc/echo-data-run-1") ∧
  run.2 =
    [mkEvent (CallCreatePersistentVolumeClaim (v1.mkPersistentVolumeClaim "echo-data-run-1"))
       None;
     mkEvent (CallCreateDeployment (v1beta1.mkDeployment "echo-run-1")) None;
     mkEvent (CallCreatePersistentVolumeClaim (v1.mkPersistentVolumeClaim "echo-data-run-1"))
       (Some "already exists: pvc/echo-data-run-1")] ∧
  served create_request (work "run-1" [mock.echo]) (take 2 run.2) ∧
  length run.1.1.1 = 0 ∧
  ¬ (length run.1.1.1 = length [mock.echo]).
Proof.
  vm_compute. split_and!; try reflexivity.
  - repeat constructor.
  - discriminate.
Qed.

(** C2, as stated, fails.  [GetVolumes] meets a component that is no claim
    between two claims and returns the two volumes without an error; and
    the error [Schedule] returns for a core component it has no case for is
    [FailedToScheduleApp], not [UnsupportedResourceKind]. *)
Lemma unsupported_kind_counterexample :
  spec.Storage mock.mixed "r" !! 1 = Some (OtherObj "&v1.ConfigMap{Name:cfg}") ∧
  value_of (GetVolumes mock.client (scheduler.mkContext "r" mock.mixed))
    (mock.mkCluster true ["pvc/a-r"; "pvc/b-r"] [])
  = (["pv-pvc/a-r"; "pv-pvc/b-r"], None) ∧
  spec.Core mock.webapp "r" !! 1 = Some (OtherObj "&v1.Service{Name:web}") ∧
  (value_of (Schedule mock.client mock.GoSyntax (factory.of_registry [mock.webapp]) "r"
               (scheduler.mkScheduleOptions [])) mock.fresh).2
  = Some (ErrFailedToScheduleApp mock.webapp
      "Failed to create unsupported core component: &v1.Service{Name:web}.") ∧
  is_UnsupportedResourceKind
    (ErrFailedToScheduleApp mock.webapp
      "Failed to create unsupported core component: &v1.Service{Name:web}.") = false.
Proof. split_and!; reflexivity. Qed.

(** [WaitForRunning] on an application whose second core component is of a
    kind it has no case for, the first one being up. *)
Lemma unsupported_kinds_witness :
  ∃ e,
    value_of (WaitForRunning mock.client mock.GoSyntax
                (scheduler.mkContext "r" mock.webapp))
      (mock.mkCluster true ["deploy/web-r"] []) = Some e ∧
    attributed ErrFailedToValidateApp mock.webapp e.
Proof.
  destruct (unsupported_kinds mock.client mock.GoSyntax (factory.of_registry []))
    as (_ & _ & _ & Hskip & _).
  apply (Hskip (scheduler.mkContext "r" mock.webapp)
           (mock.mkCluster true ["deploy/web-r"] [])
           (OtherObj "&v1.Service{Name:web}")).
  - apply list_elem_of_lookup. exists 1. reflexivity.
  - reflexivity.
Defined.

(** [Init] on a cluster that cannot be reached keeps the nodes the driver
    had; on the fresh cluster it stores the master and the worker. *)
Lemma Init_snapshot_witness :
  Init mock.client (mkK8s [scheduler.mkNode "old" [] scheduler.NodeTypeWorker])
    mock.unreachable
  = ((mkK8s [scheduler.mkNode "old" [] scheduler.NodeTypeWorker],
      Some (ClientError "cluster unreachable")),
     mock.unreachable, [mkEvent CallGetNodes (Some "cluster unreachable")]) ∧
  Init mock.client (mkK8s []) mock.fresh
  = ((mkK8s [scheduler.mkNode "master-0" ["10.0.0.1"; "54.1.2.3"] scheduler.NodeTypeMaster;
             scheduler.mkNode "worker-0" ["10.0.0.2"] scheduler.NodeTypeWorker],
      None),
     mock.fresh, [mkEvent CallGetNodes None]).
Proof.
  split.
  - exact (Init_snapshot mock.client
             (mkK8s [scheduler.mkNode "old" [] scheduler.NodeTypeWorker])
             mock.unreachable).
  - exact (Init_snapshot mock.client (mkK8s []) mock.fresh).
Defined.


(** [WaitForRunning] on three deployments of which the second is missing:
    the first is validated, the second fails, the third is not asked
    about. *)
Lemma WaitForRunning_fail_fast_witness :
  fail_fast validate_request
    [DeploymentObj (v1beta1.mkDeployment "first-r");
     DeploymentObj (v1beta1.mkDeployment "second-r");
     DeploymentObj (v1beta1.mkDeployment "third-r")]
    (Some (ErrFailedToValidateApp mock.trio
       "Failed to validate Deployment: second-r. Err: not found: deploy/second-r"))
    [mkEvent (CallValidateDeployement (v1beta1.mkDeployment "first-r")) None;
     mkEvent (CallValidateDeployement (v1beta1.mkDeployment "second-r"))
       (Some "not found: deploy/second-r")] ∧
  attributed ErrFailedToValidateApp mock.trio
    (ErrFailedToValidateApp mock.trio
       "Failed to validate Deployment: second-r. Err: not found: deploy/second-r") ∧
  replays mock.client
    [mkEvent (CallValidateDeployement (v1beta1.mkDeployment "first-r")) None;
     mkEvent (CallValidateDeployement (v1beta1.mkDeployment "second-r"))
       (Some "not found: deploy/second-r")]
    (mock.mkCluster true ["deploy/first-r"; "deploy/third-r"] [])
    (mock.mkCluster true ["deploy/first-r"; "deploy/third-r"] []).
Proof.
  exact (WaitForRunning_fail_fast mock.client mock.GoSyntax
           (scheduler.mkContext "r" mock.trio)
           (mock.mkCluster true ["deploy/first-r"; "deploy/third-r"] [])).
Defined.

(** [Destroy] on three deployments of which the second is missing: the
    first is deleted, the deletion of the second fails, and the third is
    still in the cluster afterwards. *)
Lemma Destroy_fail_fast_witness :
  fail_fast delete_request
    [DeploymentObj (v1beta1.mkDeployment "first-r");
     DeploymentObj (v1beta1.mkDeployment "second-r");
     DeploymentObj (v1beta1.mkDeployment "third-r")]
    (Some (ErrFailedToDestroyApp mock.trio
       "Failed to destroy Deployment: second-r. Err: not found: deploy/second-r"))
    [mkEvent (CallDeleteDeployment (v1beta1.mkDeployment "first-r")) None;
     mkEvent (CallDeleteDeployment (v1beta1.mkDeployment "second-r"))
       (Some "not found: deploy/second-r")] ∧
  attributed ErrFailedToDestroyApp mock.trio
    (ErrFailedToDestroyApp mock.trio
       "Failed to destroy Deployment: second-r. Err: not found: deploy/second-r") ∧
  replays mock.client
    [mkEvent (CallDeleteDeployment (v1beta1.mkDeployment "first-r")) None;
     mkEvent (CallDeleteDeployment (v1beta1.mkDeployment "second-r"))
       (Some "not found: deploy/second-r")]
    (mock.mkCluster true ["deploy/first-r"; "deploy/third-r"] [])
    (mock.mkCluster true ["deploy/third-r"] []).
Proof.
  exact (Destroy_fail_fast mock.client mock.GoSyntax
           (scheduler.mkContext "r" mock.trio)
           (mock.mkCluster true ["deploy/first-r"; "deploy/third-r"] [])).
Defined.


(** * Further properties of the driver *)

(** ** More on fail-fast runs *)

Lemma served_supported {A : Type} (req : A → option Call) (xs : list A)
    (t : list Event) (x : A) :
  served req xs t → x ∈ xs → is_Some (req x).
Proof.
  intros Hs Hx. apply list_elem_of_lookup in Hx as [i Hi].
  destruct (Forall2_lookup_l _ _ _ _ _ Hs Hi) as (ev & _ & Hev & _). by eexists.
Qed.

Lemma served_requests {A : Type} (req : A → option Call) (xs : list A)
    (t : list Event) :
  served req xs t →
  Forall (λ ev, ∃ x, x ∈ xs ∧ req x = Some (call ev)) t.
Proof.
  intros Hs. apply Forall_forall. intros ev Hev.
  apply list_elem_of_lookup in Hev as [i Hi].
  destruct (Forall2_lookup_r _ _ _ _ _ Hs Hi) as (x & Hx & Hreq & _).
  exists x. split; [|done]. apply list_elem_of_lookup. by exists i.
Qed.

(** Every request of a fail-fast run is the request of an element of the
    list. *)
Lemma fail_fast_requests {A : Type} (req : A → option Call) (xs : list A)
    (r : option error) (t : list Event) :
  fail_fast req xs r t →
  Forall (λ ev, ∃ x, x ∈ xs ∧ req x = Some (call ev)) t.
Proof.
  destruct r as [e|]; simpl; [|apply served_requests].
  intros (pre & x & post & tpre & tx & -> & -> & Hs & Hf).
  apply Forall_app. split.
  - eapply Forall_impl; [exact (served_requests req pre tpre Hs)|].
    intros ev (y & Hy & Hreq). exists y. split; [|done].
    apply elem_of_app. by left.
  - unfold failed_attempt in Hf. destruct (req x) as [c|] eqn:Hx.
    + destruct Hf as [msg ->]. constructor; [|constructor].
      exists x. split; [|done]. apply elem_of_app. right. by left.
    + subst tx. constructor.
Qed.

(** When every element has a case, a failing run ends with a failed
    request. *)
Lemma fail_fast_last_failed {A : Type} (req : A → option Call) (xs : list A)
    (e : error) (t : list Event) :
  fail_fast req xs (Some e) t →
  (∀ x, x ∈ xs → is_Some (req x)) →
  ∃ x c msg, x ∈ xs ∧ req x = Some c ∧ last t = Some (mkEvent c (Some msg)).
Proof.
  intros (pre & x & post & tpre & tx & -> & -> & Hs & Hf) Hall.
  assert (x ∈ pre ++ x :: post) as Hx by (apply elem_of_app; right; by left).
  destruct (Hall x Hx) as [c Hc].
  unfold failed_attempt in Hf. rewrite Hc in Hf. destruct Hf as [msg ->].
  exists x, c, msg. split_and!; [done|done|]. by rewrite last_snoc.
Qed.

Section MoreLoops.
Context {World A : Type}.
Implicit Types (w : World) (body : A → DriverM World (option error)).

(** The error of a loop is the error of its body on the element where the
    run stopped, and it carries the message of the failed request. *)
Lemma for_range_reports body req reject report xs w e :
  reports body req reject report →
  value_of (for_range body xs) w = Some e →
  ∃ x, x ∈ xs ∧
    match req x with
    | None => e = reject x
    | Some c =>
        ∃ msg, e = report x msg ∧
               last (trace_of (for_range body xs) w) = Some (mkEvent c (Some msg))
    end.
Proof.
  intros Hrep. unfold value_of, trace_of. revert w.
  induction xs as [|x xs IH]; intros w; [done|].
  rewrite for_range_cons. specialize (Hrep x w).
  destruct (req x) as [c|] eqn:Hreq.
  - destruct Hrep as (w1 & fl & ->). destruct fl as [msg|]; simpl.
    + intros [= <-]. exists x. split; [by left|]. rewrite Hreq. by exists msg.
    + specialize (IH w1).
      destruct (for_range body xs w1) as [[r w2] t2]; simpl in *.
      intros ->. destruct (IH eq_refl) as (y & Hy & Hmatch).
      exists y. split; [by right|].
      destruct (req y) as [cy|]; [|done].
      destruct Hmatch as (msg & -> & Hlast). exists msg. split; [done|].
      destruct t2 as [|ev t2]; [done|]. by rewrite last_cons, Hlast.
  - rewrite Hrep. simpl. intros [= <-].
    exists x. split; [by left|]. by rewrite Hreq.
Qed.

End MoreLoops.

(** ** WaitForDestroy, InspectVolumes, DeleteVolumes *)

Section MoreLifecycleProofs.
Context {World : Type} (client : k8sutils.Client World).
Context (GoSyntax : ResourceObject → string).

(** X1. [WaitForDestroy] has the client check, for the core components of
    the context's specification in their order, that the deployment is
    gone, each by a call of [ValidateTerminatedDeployment] made in the
    cluster the earlier calls left.  A call without an error checked them
    all, the client answering without an error; a call with an error
    checked the components before some component, failed on that one and
    asked nothing for the ones after it, and the error is
    [FailedToValidateAppDestroy] carrying the context's application.  The
    trace is a true record of the calls the client received and of its
    answers, and the cluster after the call is the one they left. *)
Theorem WaitForDestroy_fail_fast (ctx : scheduler.Context) (w : World) :
  fail_fast validate_terminated_request
    (context_core ctx)
    (value_of (WaitForDestroy client GoSyntax ctx) w)
    (trace_of (WaitForDestroy client GoSyntax ctx) w) ∧
  match value_of (WaitForDestroy client GoSyntax ctx) w with
  | None => True
  | Some e => attributed ErrFailedToValidateAppDestroy (scheduler.App ctx) e
  end ∧
  replays client (trace_of (WaitForDestroy client GoSyntax ctx) w) w
    (world_of (WaitForDestroy client GoSyntax ctx) w).
Proof.
  split_and!.
  - apply for_range_fail_fast, WaitForDestroy_core_dispatches.
  - destruct (value_of _ w) as [e|] eqn:Hv; [|done].
    apply for_range_error in Hv as (x & w0 & _ & Hx).
    by eapply WaitForDestroy_core_error.
  - apply WaitForDestroy_faithful.
Qed.

(** X2. [InspectVolumes] has the client validate the storage components
    of the context's specification in their order, a storage class by a
    call of [ValidateStorageClass] and a claim by a call of
    [ValidatePersistentVolumeClaim], and stops at the first failure with
    [FailedToValidateStorage] carrying the context's application; nothing
    is asked for the components after it.  The trace is a true record of
    the calls the client received and of its answers, and the cluster
    after the call is the one they left. *)
Theorem InspectVolumes_fail_fast (ctx : scheduler.Context) (w : World) :
  fail_fast validate_storage_request
    (context_storage ctx)
    (value_of (InspectVolumes client GoSyntax ctx) w)
    (trace_of (InspectVolumes client GoSyntax ctx) w) ∧
  match value_of (InspectVolumes client GoSyntax ctx) w with
  | None => True
  | Some e => attributed ErrFailedToValidateStorage (scheduler.App ctx) e
  end ∧
  replays client (trace_of (InspectVolumes client GoSyntax ctx) w) w
    (world_of (InspectVolumes client GoSyntax ctx) w).
Proof.
  split_and!.
  - apply for_range_fail_fast, InspectVolumes_storage_dispatches.
  - destruct (value_of _ w) as [e|] eqn:Hv; [|done].
    apply for_range_error in Hv as (x & w0 & _ & Hx).
    by eapply InspectVolumes_storage_error.
  - apply InspectVolumes_faithful.
Qed.

(** X3. [DeleteVolumes] has the client delete the storage components of
    the context's specification in their order, a storage class by a call
    of [DeleteStorageClass] and a claim by a call of
    [DeletePersistentVolumeClaim], and stops at the first failure with
    [FailedToDestroyStorage] carrying the context's application; the
    components after the failing one are not deleted.  The trace is a true
    record of the calls the client received and of its answers, and the
    cluster after the call is the one they left. *)
Theorem DeleteVolumes_fail_fast (ctx : scheduler.Context) (w : World) :
  fail_fast delete_storage_request
    (context_storage ctx)
    (value_of (DeleteVolumes client GoSyntax ctx) w)
    (trace_of (DeleteVolumes client GoSyntax ctx) w) ∧
  match value_of (DeleteVolumes client GoSyntax ctx) w with
  | None => True
  | Some e => attributed ErrFailedToDestroyStorage (scheduler.App ctx) e
  end ∧
  replays client (trace_of (DeleteVolumes client GoSyntax ctx) w) w
    (world_of (DeleteVolumes client GoSyntax ctx) w).
Proof.
  split_and!.
  - apply for_range_fail_fast, DeleteVolumes_storage_dispatches.
  - destruct (value_of _ w) as [e|] eqn:Hv; [|done].
    apply for_range_error in Hv as (x & w0 & _ & Hx).
    by eapply DeleteVolumes_storage_error.
  - apply DeleteVolumes_faithful.
Qed.

End MoreLifecycleProofs.

(** ** GetVolumeParameters *)

Lemma fmap_Ok_inj {A : Type} (l1 l2 : list A) :
  Ok <$> l1 = Ok <$> l2 → l1 = l2.
Proof.
  revert l2. induction l1 as [|a l1 IH]; intros [|b l2]; try done.
  rewrite !fmap_cons. intros [= -> Hrest]. f_equal. by apply IH.
Qed.

Lemma fmap_Ok_no_Err {A : Type} (l vs : list A) (msg : string) (rest : list (result A)) :
  Ok <$> l ≠ (Ok <$> vs) ++ Err msg :: rest.
Proof.
  revert l. induction vs as [|v vs IH]; intros [|a l]; try done.
  rewrite !fmap_cons. simpl. intros [= _ Hrest]. by eapply IH.
Qed.

Lemma foldl_insert_list_to_map (pairs : list (string * gmap string string))
    (acc : gmap string (gmap string string)) :
  foldl (λ m p, <[p.1 := p.2]> m) acc pairs = list_to_map (reverse pairs) ∪ acc.
Proof.
  revert acc. induction pairs as [|p pairs IH]; intros acc.
  - simpl. by rewrite (left_id_L ∅ (∪)).
  - simpl foldl. rewrite IH, reverse_cons, list_to_map_app.
    rewrite <- (assoc_L (∪)). f_equal.
    simpl. by rewrite <- insert_union_l, (left_id_L ∅ (∪)).
Qed.

Section VolumeParameterProofs.
Context {World : Type} (client : k8sutils.Client World).

Lemma param_steps_cons obj rest :
  param_steps (obj :: rest) = VolumeOf obj :: ParamsOf obj :: param_steps rest.
Proof. reflexivity. Qed.

Lemma GetVolumeParameters_loop_spec (ctx : scheduler.Context)
    (storages : list ResourceObject) (acc : gmap string (gmap string string))
    (w : World) :
  fail_fast param_request (param_steps (claims_of storages))
    (value_of (GetVolumeParameters_loop client ctx storages acc) w).2
    (trace_of (GetVolumeParameters_loop client ctx storages acc) w) ∧
  match (value_of (GetVolumeParameters_loop client ctx storages acc) w).2 with
  | None =>
      ∃ pairs,
        param_lookups client (claims_of storages) w = Ok <$> pairs ∧
        (value_of (GetVolumeParameters_loop client ctx storages acc) w).1
          = foldl (λ m p, <[p.1 := p.2]> m) acc pairs
  | Some e =>
      (value_of (GetVolumeParameters_loop client ctx storages acc) w).1 = ∅ ∧
      attributed ErrFailedToGetVolumesParameters (scheduler.App ctx) e ∧
      ∃ pairs msg rest,
        param_lookups client (claims_of storages) w = (Ok <$> pairs) ++ Err msg :: rest
  end.
Proof.
  unfold value_of, trace_of. revert acc w.
  induction storages as [|o storages IH]; intros acc w.
  - simpl. split; [constructor|]. by exists [].
  - destruct o as [sc|obj|dep|tag]; try exact (IH acc w).
    rewrite claims_of_cons_claim, param_steps_cons.
    simpl GetVolumeParameters_loop. simpl param_lookups.
    unfold bind, invoke.
    destruct (k8sutils.GetVolumeForPersistentVolumeClaim client obj w)
      as [[vol|msg] w1]; simpl.
    + destruct (k8sutils.GetPersistentVolumeClaimParams client obj w1)
        as [[ps|msg] w2]; simpl.
      * specialize (IH (<[vol := ps]> acc) w2).
        destruct (GetVolumeParameters_loop client ctx storages (<[vol := ps]> acc) w2)
          as [[[m err] w3] t3]. simpl in *.
        destruct IH as [Hff Hrest]. split.
        -- by do 2 (apply fail_fast_step; [done|]).
        -- destruct err as [e|].
           ++ destruct Hrest as (-> & Hattr & pairs & m' & rest & ->).
              split_and!; [done|done|]. by exists ((vol, ps) :: pairs), m', rest.
           ++ destruct Hrest as (pairs & -> & ->). by exists ((vol, ps) :: pairs).
      * split.
        -- exact (fail_fast_step param_request (VolumeOf obj) _ _
                    (Some (ClientError msg)) _ eq_refl
                    (fail_fast_stop param_request (ParamsOf obj) _ _ msg
                       (ClientError msg) eq_refl)).
        -- split_and!; [done|by eexists|].
           by exists [], msg, (param_lookups client (claims_of storages) w2).
    + split.
      * by apply (fail_fast_stop param_request (VolumeOf obj) _ _ msg
                    (ClientError msg)).
      * split_and!; [done|by eexists|].
        by exists [], msg, (param_lookups client (claims_of storages) w1).
Qed.

(** X4. [GetVolumeParameters] makes, for each persistent volume claim
    among the storage components and in storage order, the request for its
    volume and then the request for its parameters.  It returns no error
    only when the client answered every one of these lookups.  The first
    lookup the client fails ends the call: nothing further is requested (in
    particular not the parameters of a claim whose volume lookup failed),
    the error is [FailedToGetVolumesParameters] carrying the context's
    application, and the map returned with it is nil.  The trace is a true
    record of the calls the client received and of its answers, and the
    cluster after the call is the one they left. *)
Theorem GetVolumeParameters_fail_fast (ctx : scheduler.Context) (w : World) :
  fail_fast param_request (param_steps (claims_of (context_storage ctx)))
    (value_of (GetVolumeParameters client ctx) w).2
    (trace_of (GetVolumeParameters client ctx) w) ∧
  match (value_of (GetVolumeParameters client ctx) w).2 with
  | None =>
      ∃ pairs,
        param_lookups client (claims_of (context_storage ctx)) w = Ok <$> pairs
  | Some e =>
      (value_of (GetVolumeParameters client ctx) w).1 = ∅ ∧
      attributed ErrFailedToGetVolumesParameters (scheduler.App ctx) e ∧
      ∃ pairs msg rest,
        param_lookups client (claims_of (context_storage ctx)) w
          = (Ok <$> pairs) ++ Err msg :: rest
  end ∧
  replays client (trace_of (GetVolumeParameters client ctx) w) w
    (world_of (GetVolumeParameters client ctx) w).
Proof.
  split_and!; [| |apply GetVolumeParameters_faithful].
  - apply (GetVolumeParameters_loop_spec ctx).
  - unfold GetVolumeParameters, context_storage.
    destruct (GetVolumeParameters_loop_spec ctx
                (spec.Storage (scheduler.App ctx) (scheduler.UID ctx)) ∅ w)
      as [_ Hrest].
    destruct (value_of _ w).2 as [e|]; [done|].
    destruct Hrest as (pairs & Hl & _). by exists pairs.
Qed.

Lemma GetVolumeParameters_answers (ctx : scheduler.Context) (w : World)
    (pairs : list (string * gmap string string)) :
  param_lookups client (claims_of (context_storage ctx)) w = Ok <$> pairs →
  value_of (GetVolumeParameters client ctx) w = (list_to_map (reverse pairs), None).
Proof.
  intros Hl. unfold GetVolumeParameters.
  destruct (GetVolumeParameters_loop_spec ctx
              (spec.Storage (scheduler.App ctx) (scheduler.UID ctx)) ∅ w)
    as [_ Hrest].
  unfold context_storage in Hl.
  destruct (value_of _ w) as [m [e|]]; simpl in *.
  - destruct Hrest as (_ & _ & ps & msg & rest & Heq).
    rewrite Hl in Heq. by apply fmap_Ok_no_Err in Heq.
  - destruct Hrest as (ps & Heq & ->). rewrite Hl in Heq.
    apply fmap_Ok_inj in Heq as <-.
    by rewrite foldl_insert_list_to_map, (right_id_L ∅ (∪)).
Qed.

(** X5. When the client answers every lookup, [GetVolumeParameters]
    returns no error and the map from each volume to its parameters, with
    one key per distinct volume; when two claims resolve to the same
    volume, the entry of the later claim is the one kept. *)
Theorem GetVolumeParameters_last_wins (ctx : scheduler.Context) (w : World)
    (pairs : list (string * gmap string string)) :
  param_lookups client (claims_of (context_storage ctx)) w = Ok <$> pairs →
  value_of (GetVolumeParameters client ctx) w = (list_to_map (reverse pairs), None) ∧
  dom (value_of (GetVolumeParameters client ctx) w).1 = list_to_set pairs.*1 ∧
  ∀ done vol ps rest,
    pairs = done ++ (vol, ps) :: rest → vol ∉ rest.*1 →
    (value_of (GetVolumeParameters client ctx) w).1 !! vol = Some ps.
Proof.
  intros Hl. rewrite (GetVolumeParameters_answers ctx w pairs Hl). simpl.
  split_and!; [done| |].
  - rewrite dom_list_to_map_L, fmap_reverse.
    apply set_eq. intros v. by rewrite !elem_of_list_to_set, elem_of_reverse.
  - intros done vol ps rest -> Hnot.
    rewrite reverse_app, reverse_cons, <- app_assoc, list_to_map_app.
    apply lookup_union_Some_raw. right. split.
    + apply not_elem_of_list_to_map_1. by rewrite fmap_reverse, elem_of_reverse.
    + simpl. apply lookup_insert_eq.
Qed.

Lemma read_only_param_lookups (pvcs : list v1.PersistentVolumeClaim) (w : World)
    (pairs : list (string * gmap string string)) :
  read_only_lookups client →
  param_lookups client pvcs w = Ok <$> pairs →
  lookups client pvcs w = Ok <$> pairs.*1.
Proof.
  intros Hro. revert pairs. induction pvcs as [|obj pvcs IH]; intros pairs.
  - simpl. by destruct pairs.
  - simpl.
    pose proof (Hro obj w) as [Hv _].
    destruct (k8sutils.GetVolumeForPersistentVolumeClaim client obj w)
      as [[vol|msg] w1]; simpl in Hv; subst w1.
    + pose proof (Hro obj w) as [_ Hp].
      destruct (k8sutils.GetPersistentVolumeClaimParams client obj w)
        as [[ps|msg] w2]; simpl in Hp; subst w2.
      * destruct pairs as [|p pairs]; [done|].
        rewrite fmap_cons. intros [= <- Hrest].
        rewrite !fmap_cons. simpl. f_equal. by apply IH.
      * by destruct pairs.
    + by destruct pairs.
Qed.

(** X6. When the client's two lookups only read the cluster, a
    [GetVolumeParameters] call without an error means that [GetVolumes] on
    the same context and cluster also returns no error, and the keys of the
    map are exactly the volumes [GetVolumes] returns. *)
Theorem GetVolumeParameters_keys (ctx : scheduler.Context) (w : World) :
  read_only_lookups client →
  (value_of (GetVolumeParameters client ctx) w).2 = None →
  (value_of (GetVolumes client ctx) w).2 = None ∧
  dom (value_of (GetVolumeParameters client ctx) w).1
    = list_to_set (value_of (GetVolumes client ctx) w).1.
Proof.
  intros Hro Hnone.
  destruct (GetVolumeParameters_loop_spec ctx
              (spec.Storage (scheduler.App ctx) (scheduler.UID ctx)) ∅ w)
    as [_ Hrest].
  unfold GetVolumeParameters in *. rewrite Hnone in Hrest.
  destruct Hrest as (pairs & Hl & Hm).
  pose proof (read_only_param_lookups _ _ _ Hro Hl) as Hlook.
  destruct (GetVolumes_loop_spec client ctx
              (spec.Storage (scheduler.App ctx) (scheduler.UID ctx)) [] w)
    as [_ Hvols].
  unfold GetVolumes.
  destruct (value_of (GetVolumes_loop client ctx _ []) w) as [vols [e|]]; simpl in *.
  - destruct Hvols as (_ & _ & vs & msg & rest & Heq).
    rewrite Hlook in Heq. by apply fmap_Ok_no_Err in Heq.
  - destruct Hvols as (vs & Heq & ->). rewrite Hlook in Heq.
    apply fmap_Ok_inj in Heq as <-. split; [done|].
    rewrite Hm, foldl_insert_list_to_map, (right_id_L ∅ (∪)).
    rewrite dom_list_to_map_L, fmap_reverse.
    apply set_eq. intros v. by rewrite !elem_of_list_to_set, elem_of_reverse.
Qed.

End VolumeParameterProofs.

(** ** More on Schedule *)

Lemma elem_of_work (instanceID : string) (specs : list spec.AppSpec) (c : Component) :
  c ∈ work instanceID specs →
  ∃ s, s ∈ specs ∧
       ((∃ o, c = StorageOf s o ∧ o ∈ spec.Storage s instanceID) ∨
        (∃ o, c = CoreOf s o ∧ o ∈ spec.Core s instanceID)).
Proof.
  induction specs as [|s specs IH]; unfold work; simpl.
  - by intros ?%elem_of_nil.
  - fold (work instanceID specs). intros [Hc|Hc]%elem_of_app.
    + exists s. split; [by left|]. unfold components in Hc.
      apply elem_of_app in Hc as [Hc|Hc];
        apply list_elem_of_fmap in Hc as (o & -> & Ho); [left|right]; by exists o.
    + destruct (IH Hc) as (s' & Hs' & Hcase). exists s'. split; [by right|done].
Qed.

Lemma work_elem_of (instanceID : string) (specs : list spec.AppSpec) (s : spec.AppSpec)
    (c : Component) :
  s ∈ specs → c ∈ components instanceID s → c ∈ work instanceID specs.
Proof.
  intros Hs Hc. induction specs as [|s' specs IH]; [by apply elem_of_nil in Hs|].
  unfold work. simpl. fold (work instanceID specs). apply elem_of_app.
  apply elem_of_cons in Hs as [->|Hs]; [by left|right; by apply IH].
Qed.

Section MoreScheduleProofs.
Context {World : Type} (client : k8sutils.Client World).
Context (GoSyntax : ResourceObject → string).
Context (fac : factory.Factory).

(** The two ways a [Schedule] call ends. *)
Lemma Schedule_outcome (instanceID : string) (options : scheduler.ScheduleOptions)
    (w : World) :
  match value_of (Schedule client GoSyntax fac instanceID options) w with
  | (ctxs, None) =>
      ∃ specs,
        Schedule_specs_of fac options = inr specs ∧
        ctxs = scheduler.mkContext instanceID <$> specs ∧
        served create_request (work instanceID specs)
          (trace_of (Schedule client GoSyntax fac instanceID options) w)
  | (ctxs, Some e) => ctxs = []
  end.
Proof.
  pose proof (Schedule_fail_fast client GoSyntax fac instanceID options w) as Hff.
  destruct (Schedule_specs_of fac options) as [err|specs] eqn:Hs.
  - unfold value_of. by rewrite Hff.
  - revert Hff. unfold value_of, trace_of.
    rewrite (Schedule_run client GoSyntax fac _ _ specs w Hs).
    destruct (for_range _ (work instanceID specs) w) as [[[e|] w1] t1]; simpl; [done|].
    intros Hserved. by exists specs.
Qed.


Lemma Schedule_resolve_keys (keys : list string) (acc specs : list spec.AppSpec) :
  Schedule_resolve fac keys acc = inr specs →
  ∃ new, specs = acc ++ new ∧
         Forall2 (λ key s, factory.Get fac key = inr s) keys new.
Proof.
  revert acc. induction keys as [|key keys IH]; intros acc; simpl.
  - intros [= <-]. exists []. split; [by rewrite app_nil_r|constructor].
  - destruct (factory.Get fac key) as [err|s] eqn:Hget; [done|].
    intros Hres. destruct (IH _ Hres) as (new & -> & Hall).
    exists (s :: new). split; [by rewrite <- app_assoc|]. by constructor.
Qed.

(** X8. With keys in the options, a [Schedule] call that returns no error
    returns one context per key, in the order of the keys and a key listed
    twice scheduled twice: the context at a key's position has the instance
    ID as UID and, as App, the specification the factory returns for that
    key. *)
Theorem Schedule_one_context_per_key (instanceID : string)
    (options : scheduler.ScheduleOptions) (w : World) :
  scheduler.AppKeys options ≠ [] →
  (value_of (Schedule client GoSyntax fac instanceID options) w).2 = None →
  Forall2
    (λ key ctx,
       factory.Get fac key = inr (scheduler.App ctx) ∧ scheduler.UID ctx = instanceID)
    (scheduler.AppKeys options)
    (value_of (Schedule client GoSyntax fac instanceID options) w).1.
Proof.
  intros Hkeys Hnone.
  pose proof (Schedule_outcome instanceID options w) as Hout.
  destruct (value_of _ w) as [ctxs [e|]]; [done|]. simpl.
  destruct Hout as (specs & Hs & -> & _).
  unfold Schedule_specs_of in Hs.
  destruct (scheduler.AppKeys options) as [|k keys] eqn:Hk; [done|].
  simpl length in Hs. simpl Nat.ltb in Hs. cbv iota in Hs.
  destruct (Schedule_resolve_keys _ _ _ Hs) as (new & -> & Hall). simpl.
  apply Forall2_fmap_r. eapply Forall2_impl; [exact Hall|].
  intros key s Hget. by split.
Qed.

Lemma Schedule_resolve_error (pre post : list string) (key : string)
    (acc : list spec.AppSpec) (err : error) :
  Forall (λ k, ∃ s, factory.Get fac k = inr s) pre →
  factory.Get fac key = inl err →
  Schedule_resolve fac (pre ++ key :: post) acc = inl err.
Proof.
  intros Hpre Hkey. revert acc.
  induction Hpre as [|k pre [s Hs] _ IH]; intros acc; simpl.
  - by rewrite Hkey.
  - rewrite Hs. apply IH.
Qed.

(** X9. With keys in the options, the error of the first key the factory
    does not resolve is returned as it is, with nil contexts; the later
    keys are not looked at, the cluster is as it was, and no request was
    made, not even for the keys before it that did resolve. *)
Theorem Schedule_first_unresolved_key (instanceID : string)
    (options : scheduler.ScheduleOptions) (pre post : list string) (key : string)
    (err : error) (w : World) :
  scheduler.AppKeys options = pre ++ key :: post →
  Forall (λ k, ∃ s, factory.Get fac k = inr s) pre →
  factory.Get fac key = inl err →
  Schedule client GoSyntax fac instanceID options w = (([], Some err), w, []).
Proof.
  intros Hkeys Hpre Hkey. unfold Schedule, Schedule_specs_of. rewrite Hkeys.
  rewrite (Schedule_resolve_error pre post key [] err Hpre Hkey).
  by destruct pre.
Qed.

End MoreScheduleProofs.

(** ** Init, again *)

Section MoreInitProofs.
Context {World : Type} (client : k8sutils.Client World).

(** X10. [Init] adds to the snapshot and never resets it: after two calls
    whose listings both succeed, [GetNodes] returns the nodes the driver
    held before, then one node per cluster node of the first listing, then
    one per cluster node of the second, so a cluster node listed both times
    is there twice. *)
Theorem Init_accumulates (k : k8s) (w w1 w2 : World) (l1 l2 : v1.NodeList) :
  k8sutils.GetNodes client w = (Ok l1, w1) →
  k8sutils.GetNodes client w1 = (Ok l2, w2) →
  (value_of (Init client (value_of (Init client k) w).1) w1).2 = None ∧
  GetNodes (value_of (Init client (value_of (Init client k) w).1) w1).1 =
    GetNodes k ++
    ((λ n, scheduler.mkNode (v1.Name n) (Init_addrs n)
             (if k8sutils.IsNodeMaster client n
              then scheduler.NodeTypeMaster else scheduler.NodeTypeWorker))
     <$> (v1.Items l1 ++ v1.Items l2)) ∧
  length (GetNodes (value_of (Init client (value_of (Init client k) w).1) w1).1) =
    length (GetNodes k) + length (v1.Items l1) + length (v1.Items l2).
Proof.
  intros H1 H2.
  pose proof (Init_run client k w) as Hr1. rewrite H1 in Hr1.
  unfold value_of at 2 4 6. rewrite Hr1. simpl.
  pose proof (Init_run client
    (mkK8s (nodes k ++
       ((λ n, scheduler.mkNode (v1.Name n) (Init_addrs n)
                (if k8sutils.IsNodeMaster client n
                 then scheduler.NodeTypeMaster else scheduler.NodeTypeWorker))
        <$> v1.Items l1))) w1) as Hr2.
  rewrite H2 in Hr2. unfold value_of. rewrite Hr2. simpl. unfold GetNodes. simpl.
  split_and!; [done| |].
  - by rewrite fmap_app, app_assoc.
  - rewrite !length_app, !length_fmap. lia.
Qed.

End MoreInitProofs.

(** ** Contexts returned by Schedule *)

Section ScheduledContextProofs.
Context {World : Type} (client : k8sutils.Client World).
Context (GoSyntax : ResourceObject → string).
Context (fac : factory.Factory).

(** A context returned without an error is the context of a specification
    all of whose components [Schedule] had a case for. *)
Lemma scheduled_components (instanceID : string) (options : scheduler.ScheduleOptions)
    (w : World) (ctx : scheduler.Context) :
  (value_of (Schedule client GoSyntax fac instanceID options) w).2 = None →
  ctx ∈ (value_of (Schedule client GoSyntax fac instanceID options) w).1 →
  (∀ o, o ∈ context_storage ctx → is_Some (create_storage_request o)) ∧
  (∀ o, o ∈ context_core ctx → is_Some (create_core_request o)).
Proof.
  intros Hnone Hctx.
  pose proof (Schedule_outcome client GoSyntax fac instanceID options w) as Hout.
  destruct (value_of _ w) as [ctxs [e|]]; [done|]. simpl in *.
  destruct Hout as (specs & _ & -> & Hserved).
  apply list_elem_of_fmap in Hctx as (s & -> & Hs).
  unfold context_storage, context_core. simpl. split; intros o Ho.
  - apply (served_supported create_request _ _ (StorageOf s o) Hserved).
    apply (work_elem_of _ _ s); [done|]. unfold components.
    apply elem_of_app. left. apply list_elem_of_fmap. by exists o.
  - apply (served_supported create_request _ _ (CoreOf s o) Hserved).
    apply (work_elem_of _ _ s); [done|]. unfold components.
    apply elem_of_app. right. apply list_elem_of_fmap. by exists o.
Qed.

Lemma core_request_cases (o : ResourceObject) :
  is_Some (create_core_request o) →
  is_Some (validate_request o) ∧ is_Some (delete_request o) ∧
  is_Some (validate_terminated_request o).
Proof. destruct o; simpl; intros [c Hc]; try done; split_and!; by eexists. Qed.

Lemma storage_request_cases (o : ResourceObject) :
  is_Some (create_storage_request o) →
  is_Some (validate_storage_request o) ∧ is_Some (delete_storage_request o).
Proof. destruct o; simpl; intros [c Hc]; try done; split_and!; by eexists. Qed.

(** A failing loop all of whose elements have a case: the run ends with a
    request that the client itself failed. *)
Lemma failing_run_performed {A : Type} (body : A → DriverM World (option error))
    (req : A → option Call) (xs : list A) (w : World) (e : error) :
  dispatches body req → (∀ x, faithful client (body x)) →
  (∀ x, x ∈ xs → is_Some (req x)) →
  value_of (for_range body xs) w = Some e →
  ∃ x c msg pre w0,
    x ∈ xs ∧ req x = Some c ∧
    trace_of (for_range body xs) w = pre ++ [mkEvent c (Some msg)] ∧
    replays client pre w w0 ∧
    perform client c w0 = (Some msg, world_of (for_range body xs) w).
Proof.
  intros Hd Hf Hall He.
  pose proof (for_range_fail_fast body req xs w Hd) as Hff. rewrite He in Hff.
  apply fail_fast_last_failed in Hff as (x & c & msg & Hx & Hreq & Hlast); [|done].
  destruct (last_failed_performed client _ _ _ _ _
              (faithful_for_range client body xs Hf w) Hlast)
    as (pre & w0 & Ht & Hpre & Hperf).
  by exists x, c, msg, pre, w0.
Qed.

(** X11. On a context that [Schedule] returned without an error, the
    three operations on core components never meet a component they have no
    case for.  An error of [WaitForRunning], [Destroy] or [WaitForDestroy]
    always comes from the client: the last call the operation made, the
    validation, deletion or termination check of a deployment among the
    core components, is one the client answered with an error, in the
    cluster that the calls before it left, and the cluster after the
    operation is the one that failed call left. *)
Theorem scheduled_core_errors (instanceID : string)
    (options : scheduler.ScheduleOptions) (w : World) (ctx : scheduler.Context) :
  (value_of (Schedule client GoSyntax fac instanceID options) w).2 = None →
  ctx ∈ (value_of (Schedule client GoSyntax fac instanceID options) w).1 →
  (∀ w' e, value_of (WaitForRunning client GoSyntax ctx) w' = Some e →
     ∃ obj msg pre w0,
       DeploymentObj obj ∈ context_core ctx ∧
       trace_of (WaitForRunning client GoSyntax ctx) w'
         = pre ++ [mkEvent (CallValidateDeployement obj) (Some msg)] ∧
       replays client pre w' w0 ∧
       k8sutils.ValidateDeployement client obj w0
         = (Err msg, world_of (WaitForRunning client GoSyntax ctx) w')) ∧
  (∀ w' e, value_of (Destroy client GoSyntax ctx) w' = Some e →
     ∃ obj msg pre w0,
       DeploymentObj obj ∈ context_core ctx ∧
       trace_of (Destroy client GoSyntax ctx) w'
         = pre ++ [mkEvent (CallDeleteDeployment obj) (Some msg)] ∧
       replays client pre w' w0 ∧
       k8sutils.DeleteDeployment client obj w0
         = (Err msg, world_of (Destroy client GoSyntax ctx) w')) ∧
  (∀ w' e, value_of (WaitForDestroy client GoSyntax ctx) w' = Some e →
     ∃ obj msg pre w0,
       DeploymentObj obj ∈ context_core ctx ∧
       trace_of (WaitForDestroy client GoSyntax ctx) w'
         = pre ++ [mkEvent (CallValidateTerminatedDeployment obj) (Some msg)] ∧
       replays client pre w' w0 ∧
       k8sutils.ValidateTerminatedDeployment client obj w0
         = (Err msg, world_of (WaitForDestroy client GoSyntax ctx) w')).
Proof.
  intros Hnone Hctx.
  destruct (scheduled_components instanceID options w ctx Hnone Hctx) as [_ Hcore].
  split_and!; intros w' e He.
  - destruct (failing_run_performed (WaitForRunning_core client GoSyntax ctx)
                validate_request (context_core ctx) w' e
                (WaitForRunning_core_dispatches client GoSyntax ctx)
                (WaitForRunning_core_faithful client GoSyntax ctx))
      as (o & c & msg & pre & w0 & Ho & Hreq & Ht & Hpre & Hperf); [|done|].
    + intros o Ho. by apply core_request_cases, Hcore.
    + destruct o as [?|?|obj|?]; try done. injection Hreq as <-.
      exists obj, msg, pre, w0. split_and!; [done|done|done|].
      by apply outcome_failed.
  - destruct (failing_run_performed (Destroy_core client GoSyntax ctx)
                delete_request (context_core ctx) w' e
                (Destroy_core_dispatches client GoSyntax ctx)
                (Destroy_core_faithful client GoSyntax ctx))
      as (o & c & msg & pre & w0 & Ho & Hreq & Ht & Hpre & Hperf); [|done|].
    + intros o Ho. by apply core_request_cases, Hcore.
    + destruct o as [?|?|obj|?]; try done. injection Hreq as <-.
      exists obj, msg, pre, w0. split_and!; [done|done|done|].
      by apply outcome_failed.
  - destruct (failing_run_performed (WaitForDestroy_core client GoSyntax ctx)
                validate_terminated_request (context_core ctx) w' e
                (WaitForDestroy_core_dispatches client GoSyntax ctx)
                (WaitForDestroy_core_faithful client GoSyntax ctx))
      as (o & c & msg & pre & w0 & Ho & Hreq & Ht & Hpre & Hperf); [|done|].
    + intros o Ho. by apply core_request_cases, Hcore.
    + destruct o as [?|?|obj|?]; try done. injection Hreq as <-.
      exists obj, msg, pre, w0. split_and!; [done|done|done|].
      by apply outcome_failed.
Qed.

(** X12. On a context that [Schedule] returned without an error,
    [InspectVolumes] and [DeleteVolumes] never meet a storage component
    they have no case for.  Their error always comes from the client: the
    last call made, for a storage class or a claim among the storage
    components and by the client function for that kind, is one the client
    answered with an error, in the cluster that the calls before it left,
    and the cluster after the operation is the one that failed call
    left. *)
Theorem scheduled_storage_errors (instanceID : string)
    (options : scheduler.ScheduleOptions) (w : World) (ctx : scheduler.Context) :
  (value_of (Schedule client GoSyntax fac instanceID options) w).2 = None →
  ctx ∈ (value_of (Schedule client GoSyntax fac instanceID options) w).1 →
  (∀ w' e, value_of (InspectVolumes client GoSyntax ctx) w' = Some e →
     ∃ msg pre w0 ev,
       trace_of (InspectVolumes client GoSyntax ctx) w' = pre ++ [ev] ∧
       replays client pre w' w0 ∧
       ((∃ obj, StorageClassObj obj ∈ context_storage ctx ∧
                ev = mkEvent (CallValidateStorageClass obj) (Some msg) ∧
                k8sutils.ValidateStorageClass client obj w0
                  = (Err msg, world_of (InspectVolumes client GoSyntax ctx) w')) ∨
        (∃ obj, PersistentVolumeClaimObj obj ∈ context_storage ctx ∧
                ev = mkEvent (CallValidatePersistentVolumeClaim obj) (Some msg) ∧
                k8sutils.ValidatePersistentVolumeClaim client obj w0
                  = (Err msg, world_of (InspectVolumes client GoSyntax ctx) w')))) ∧
  (∀ w' e, value_of (DeleteVolumes client GoSyntax ctx) w' = Some e →
     ∃ msg pre w0 ev,
       trace_of (DeleteVolumes client GoSyntax ctx) w' = pre ++ [ev] ∧
       replays client pre w' w0 ∧
       ((∃ obj, StorageClassObj obj ∈ context_storage ctx ∧
                ev = mkEvent (CallDeleteStorageClass obj) (Some msg) ∧
                k8sutils.DeleteStorageClass client obj w0
                  = (Err msg, world_of (DeleteVolumes client GoSyntax ctx) w')) ∨
        (∃ obj, PersistentVolumeClaimObj obj ∈ context_storage ctx ∧
                ev = mkEvent (CallDeletePersistentVolumeClaim obj) (Some msg) ∧
                k8sutils.DeletePersistentVolumeClaim client obj w0
                  = (Err msg, world_of (DeleteVolumes client GoSyntax ctx) w')))).
Proof.
  intros Hnone Hctx.
  destruct (scheduled_components instanceID options w ctx Hnone Hctx) as [Hst _].
  split_and!; intros w' e He.
  - destruct (failing_run_performed (InspectVolumes_storage client GoSyntax ctx)
                validate_storage_request (context_storage ctx) w' e
                (InspectVolumes_storage_dispatches client GoSyntax ctx)
                (InspectVolumes_storage_faithful client GoSyntax ctx))
      as (o & c & msg & pre & w0 & Ho & Hreq & Ht & Hpre & Hperf); [|done|].
    + intros o Ho. by apply storage_request_cases, Hst.
    + exists msg, pre, w0, (mkEvent c (Some msg)). split_and!; [done|done|].
      destruct o as [obj|obj|?|?]; try done; injection Hreq as <-;
        [left|right]; exists obj; (split_and!; [done|done|]);
        by apply outcome_failed.
  - destruct (failing_run_performed (DeleteVolumes_storage client GoSyntax ctx)
                delete_storage_request (context_storage ctx) w' e
                (DeleteVolumes_storage_dispatches client GoSyntax ctx)
                (DeleteVolumes_storage_faithful client GoSyntax ctx))
      as (o & c & msg & pre & w0 & Ho & Hreq & Ht & Hpre & Hperf); [|done|].
    + intros o Ho. by apply storage_request_cases, Hst.
    + exists msg, pre, w0, (mkEvent c (Some msg)). split_and!; [done|done|].
      destruct o as [obj|obj|?|?]; try done; injection Hreq as <-;
        [left|right]; exists obj; (split_and!; [done|done|]);
        by apply outcome_failed.
Qed.

End ScheduledContextProofs.

(** ** What each operation asks of the client *)

Section RequestProofs.
Context {World : Type} (client : k8sutils.Client World).
Context (GoSyntax : ResourceObject → string).

Lemma requests_never_mutate {A : Type} (req : A → option Call) (xs : list A)
    (r : option error) (t : list Event) :
  (∀ x c, req x = Some c → is_mutation c = false) →
  fail_fast req xs r t →
  Forall (λ ev, is_mutation (call ev) = false) t.
Proof.
  intros Hreq Hff. apply fail_fast_requests in Hff.
  eapply Forall_impl; [exact Hff|]. intros ev (x & _ & Hx). by eapply Hreq.
Qed.

(** X13. The operations that inspect never have the client create or
    delete anything: no request of [WaitForRunning], [WaitForDestroy],
    [InspectVolumes], [GetVolumes] or [GetVolumeParameters] is a create or
    a delete, whatever the outcome of the call, and these requests are all
    the calls the client received: the trace is a true record, and the
    cluster after the call is the one the recorded requests left. *)
Theorem inspections_never_mutate (ctx : scheduler.Context) (w : World) :
  (Forall (λ ev, is_mutation (call ev) = false)
     (trace_of (WaitForRunning client GoSyntax ctx) w) ∧
   replays client (trace_of (WaitForRunning client GoSyntax ctx) w) w
     (world_of (WaitForRunning client GoSyntax ctx) w)) ∧
  (Forall (λ ev, is_mutation (call ev) = false)
     (trace_of (WaitForDestroy client GoSyntax ctx) w) ∧
   replays client (trace_of (WaitForDestroy client GoSyntax ctx) w) w
     (world_of (WaitForDestroy client GoSyntax ctx) w)) ∧
  (Forall (λ ev, is_mutation (call ev) = false)
     (trace_of (InspectVolumes client GoSyntax ctx) w) ∧
   replays client (trace_of (InspectVolumes client GoSyntax ctx) w) w
     (world_of (InspectVolumes client GoSyntax ctx) w)) ∧
  (Forall (λ ev, is_mutation (call ev) = false)
     (trace_of (GetVolumes client ctx) w) ∧
   replays client (trace_of (GetVolumes client ctx) w) w
     (world_of (GetVolumes client ctx) w)) ∧
  (Forall (λ ev, is_mutation (call ev) = false)
     (trace_of (GetVolumeParameters client ctx) w) ∧
   replays client (trace_of (GetVolumeParameters client ctx) w) w
     (world_of (GetVolumeParameters client ctx) w)).
Proof.
  split_and!.
  - eapply (requests_never_mutate validate_request).
    + intros [?|?|?|?] c; simpl; intros [= <-]; done.
    + apply for_range_fail_fast, WaitForRunning_core_dispatches.
  - apply WaitForRunning_faithful.
  - eapply (requests_never_mutate validate_terminated_request).
    + intros [?|?|?|?] c; simpl; intros [= <-]; done.
    + apply for_range_fail_fast, WaitForDestroy_core_dispatches.
  - apply WaitForDestroy_faithful.
  - eapply (requests_never_mutate validate_storage_request).
    + intros [?|?|?|?] c; simpl; intros [= <-]; done.
    + apply for_range_fail_fast, InspectVolumes_storage_dispatches.
  - apply InspectVolumes_faithful.
  - eapply (requests_never_mutate volume_request).
    + intros obj c; simpl; intros [= <-]; done.
    + apply (GetVolumes_loop_spec client ctx).
  - apply GetVolumes_faithful.
  - eapply (requests_never_mutate param_request).
    + intros [?|?] c; simpl; intros [= <-]; done.
    + apply (GetVolumeParameters_loop_spec client ctx).
  - apply GetVolumeParameters_faithful.
Qed.

(** X14. [Destroy] and [DeleteVolumes] keep to their own list.  Every
    call [Destroy] has the client make is a [DeleteDeployment] of a
    deployment that is a core component of the context, so it deletes no
    storage; every call [DeleteVolumes] has the client make is a
    [DeleteStorageClass] or a [DeletePersistentVolumeClaim] of a storage
    component of the context, so it deletes no deployment.  In both cases
    the trace is a true record of the calls the client received, and the
    cluster after the call is the one they left. *)
Theorem deletions_keep_to_their_list (ctx : scheduler.Context) (w : World) :
  (Forall (λ ev, ∃ obj, call ev = CallDeleteDeployment obj ∧
                        DeploymentObj obj ∈ context_core ctx)
     (trace_of (Destroy client GoSyntax ctx) w) ∧
   replays client (trace_of (Destroy client GoSyntax ctx) w) w
     (world_of (Destroy client GoSyntax ctx) w)) ∧
  (Forall (λ ev,
             (∃ obj, call ev = CallDeleteStorageClass obj ∧
                     StorageClassObj obj ∈ context_storage ctx) ∨
             (∃ obj, call ev = CallDeletePersistentVolumeClaim obj ∧
                     PersistentVolumeClaimObj obj ∈ context_storage ctx))
     (trace_of (DeleteVolumes client GoSyntax ctx) w) ∧
   replays client (trace_of (DeleteVolumes client GoSyntax ctx) w) w
     (world_of (DeleteVolumes client GoSyntax ctx) w)).
Proof.
  split_and!.
  - pose proof (for_range_fail_fast (Destroy_core client GoSyntax ctx) delete_request
                  (context_core ctx) w (Destroy_core_dispatches client GoSyntax ctx))
      as Hff.
    apply fail_fast_requests in Hff. eapply Forall_impl; [exact Hff|].
    intros ev (o & Ho & Hreq). destruct o as [?|?|obj|?]; try done.
    injection Hreq as Hc. by exists obj.
  - apply Destroy_faithful.
  - pose proof (for_range_fail_fast (DeleteVolumes_storage client GoSyntax ctx)
                  delete_storage_request (context_storage ctx) w
                  (DeleteVolumes_storage_dispatches client GoSyntax ctx)) as Hff.
    apply fail_fast_requests in Hff. eapply Forall_impl; [exact Hff|].
    intros ev (o & Ho & Hreq). destruct o as [obj|obj|?|?]; try done;
      injection Hreq as Hc; [left|right]; by exists obj.
  - apply DeleteVolumes_faithful.
Qed.

(** *** The cause of an error *)

Ltac report_cases :=
  intros x w; destruct x as [?|?|?|?]; simpl; try done;
  unfold bind, invoke, ret;
  repeat match goal with
  | |- context [let '(_, _) := ?f ?w in _] =>
      let r := fresh "r" in let w1 := fresh "w" in
      destruct (f w) as [[r|r] w1]; simpl
  end;
  first [ by eexists _, None | by eexists _, (Some _) ].

Lemma Destroy_core_reports ctx :
  reports (Destroy_core client GoSyntax ctx) delete_request
    (λ o, ErrFailedToDestroyApp (scheduler.App ctx)
       ("Failed to destroy unsupported core component: " +:+ GoSyntax o +:+ "."))
    (λ o msg, ErrFailedToDestroyApp (scheduler.App ctx)
       ("Failed to destroy Deployment: "
        +:+ match o with DeploymentObj obj => v1beta1.Name obj | _ => "" end
        +:+ ". Err: " +:+ msg)).
Proof. report_cases. Qed.

Lemma Schedule_component_reports :
  reports (Schedule_component client GoSyntax) create_request
    (λ c, ErrFailedToScheduleApp (owner c)
       match c with
       | StorageOf _ o =>
           "Failed to create unsupported storage component: " +:+ GoSyntax o +:+ "."
       | CoreOf _ o =>
           "Failed to create unsupported core component: " +:+ GoSyntax o +:+ "."
       end)
    (λ c msg, ErrFailedToScheduleApp (owner c)
       match c with
       | StorageOf _ (StorageClassObj obj) =>
           "Failed to create storage class: " +:+ storage_v1beta1.Name obj
           +:+ ". Err: " +:+ msg
       | StorageOf _ (PersistentVolumeClaimObj obj) =>
           "Failed to create PVC: " +:+ v1.pvc_Name obj +:+ ". Err: " +:+ msg
       | CoreOf _ (DeploymentObj obj) =>
           "Failed to create Deployment: " +:+ v1beta1.Name obj +:+ ". Err: " +:+ msg
       | _ => ""
       end).
Proof. intros [s o|s o] w; revert o w; report_cases. Qed.

(** X15. The error of [Destroy] says what went wrong.  Either the last
    call made is the [DeleteDeployment] of a deployment of the context's
    core that the client answered with an error, in the cluster the calls
    before it left, and the cause names that deployment and ends with the
    client's message; or the call stopped at a core component that is no
    deployment, and the cause is the description of that component.  The
    trace is a true record of the calls the client received, and the
    cluster after the call is the one they left. *)
Theorem Destroy_error_cause (ctx : scheduler.Context) (w : World) (e : error) :
  value_of (Destroy client GoSyntax ctx) w = Some e →
  ((∃ obj msg pre w0,
      DeploymentObj obj ∈ context_core ctx ∧
      trace_of (Destroy client GoSyntax ctx) w
        = pre ++ [mkEvent (CallDeleteDeployment obj) (Some msg)] ∧
      replays client pre w w0 ∧
      k8sutils.DeleteDeployment client obj w0
        = (Err msg, world_of (Destroy client GoSyntax ctx) w) ∧
      e = ErrFailedToDestroyApp (scheduler.App ctx)
            ("Failed to destroy Deployment: " +:+ v1beta1.Name obj
             +:+ ". Err: " +:+ msg)) ∨
   (∃ o,
      o ∈ context_core ctx ∧ delete_request o = None ∧
      e = ErrFailedToDestroyApp (scheduler.App ctx)
            ("Failed to destroy unsupported core component: " +:+ GoSyntax o +:+ "."))) ∧
  replays client (trace_of (Destroy client GoSyntax ctx) w) w
    (world_of (Destroy client GoSyntax ctx) w).
Proof.
  intros He. split; [|apply Destroy_faithful].
  destruct (for_range_reports _ _ _ _ _ _ _ (Destroy_core_reports ctx) He)
    as (o & Ho & Hcase).
  destruct (delete_request o) as [c|] eqn:Hreq.
  - left. destruct Hcase as (msg & -> & Hlast).
    destruct o as [?|?|obj|?]; try done. injection Hreq as <-.
    destruct (last_failed_performed client _ _ _ _ _
                (Destroy_faithful client GoSyntax ctx w) Hlast)
      as (pre & w0 & Ht & Hpre & Hperf).
    exists obj, msg, pre, w0. split_and!; [done|done|done| |done].
    by apply outcome_failed.
  - right. by exists o.
Qed.

End RequestProofs.

Section ScheduleCauseProofs.
Context {World : Type} (client : k8sutils.Client World).
Context (GoSyntax : ResourceObject → string).
Context (fac : factory.Factory).

(** X16. The error of a [Schedule] call that resolved its specifications
    names the specification and the component that failed.  Either the last
    call made, the [CreateStorageClass], [CreatePersistentVolumeClaim] or
    [CreateDeployment] of a component of one of the resolved
    specifications, was answered by the client with an error, in the
    cluster the calls before it left, and the cause names the object and
    ends with the client's message; or the call stopped at a component of
    a kind without a case, and the cause is the description of that
    component.  In each case the error carries the specification the
    component belongs to.  The trace is a true record of the calls the
    client received, and the cluster after the call is the one they
    left. *)
Theorem Schedule_error_cause (instanceID : string) (options : scheduler.ScheduleOptions)
    (specs : list spec.AppSpec) (w : World) (e : error) :
  Schedule_specs_of fac options = inr specs →
  (value_of (Schedule client GoSyntax fac instanceID options) w).2 = Some e →
  (∃ s, s ∈ specs ∧
    ((∃ obj msg pre w0,
        StorageClassObj obj ∈ spec.Storage s instanceID ∧
        trace_of (Schedule client GoSyntax fac instanceID options) w
          = pre ++ [mkEvent (CallCreateStorageClass obj) (Some msg)] ∧
        replays client pre w w0 ∧
        k8sutils.CreateStorageClass client obj w0
          = (Err msg, world_of (Schedule client GoSyntax fac instanceID options) w) ∧
        e = ErrFailedToScheduleApp s
              ("Failed to create storage class: " +:+ storage_v1beta1.Name obj
               +:+ ". Err: " +:+ msg)) ∨
     (∃ obj msg pre w0,
        PersistentVolumeClaimObj obj ∈ spec.Storage s instanceID ∧
        trace_of (Schedule client GoSyntax fac instanceID options) w
          = pre ++ [mkEvent (CallCreatePersistentVolumeClaim obj) (Some msg)] ∧
        replays client pre w w0 ∧
        k8sutils.CreatePersistentVolumeClaim client obj w0
          = (Err msg, world_of (Schedule client GoSyntax fac instanceID options) w) ∧
        e = ErrFailedToScheduleApp s
              ("Failed to create PVC: " +:+ v1.pvc_Name obj +:+ ". Err: " +:+ msg)) ∨
     (∃ obj msg pre w0,
        DeploymentObj obj ∈ spec.Core s instanceID ∧
        trace_of (Schedule client GoSyntax fac instanceID options) w
          = pre ++ [mkEvent (CallCreateDeployment obj) (Some msg)] ∧
        replays client pre w w0 ∧
        k8sutils.CreateDeployment client obj w0
          = (Err msg, world_of (Schedule client GoSyntax fac instanceID options) w) ∧
        e = ErrFailedToScheduleApp s
              ("Failed to create Deployment: " +:+ v1beta1.Name obj
               +:+ ". Err: " +:+ msg)) ∨
     (∃ o,
        o ∈ spec.Storage s instanceID ∧ create_storage_request o = None ∧
        e = ErrFailedToScheduleApp s
              ("Failed to create unsupported storage component: "
               +:+ GoSyntax o +:+ ".")) ∨
     (∃ o,
        o ∈ spec.Core s instanceID ∧ create_core_request o = None ∧
        e = ErrFailedToScheduleApp s
              ("Failed to create unsupported core component: "
               +:+ GoSyntax o +:+ ".")))) ∧
  replays client
    (trace_of (Schedule client GoSyntax fac instanceID options) w) w
    (world_of (Schedule client GoSyntax fac instanceID options) w).
Proof.
  intros Hs He. split; [|apply Schedule_faithful].
  pose proof (Schedule_faithful client GoSyntax fac instanceID options w) as Hrep.
  revert He Hrep. unfold value_of, trace_of, world_of.
  rewrite (Schedule_run client GoSyntax fac _ _ specs w Hs).
  pose proof (for_range_reports (Schedule_component client GoSyntax) create_request
                _ _ (work instanceID specs) w e
                (Schedule_component_reports client GoSyntax)) as Hrep0.
  unfold value_of, trace_of in Hrep0.
  destruct (for_range _ (work instanceID specs) w) as [[[e1|] w1] t1]; simpl in *;
    [|done].
  intros [= ->] Hrep. destruct (Hrep0 eq_refl) as (c & Hc & Hcase).
  apply elem_of_work in Hc as (s & Hin & [(o & -> & Ho)|(o & -> & Ho)]);
    exists s; (split; [done|]); simpl in Hcase.
  - destruct o as [obj|obj|?|?]; simpl in Hcase.
    + destruct Hcase as (msg & -> & Hlast). left.
      destruct (last_failed_performed client _ _ _ _ _ Hrep Hlast)
        as (pre & w0 & Ht & Hpre & Hperf).
      exists obj, msg, pre, w0. split_and!; [done|done|done| |done].
      by apply outcome_failed.
    + destruct Hcase as (msg & -> & Hlast). right; left.
      destruct (last_failed_performed client _ _ _ _ _ Hrep Hlast)
        as (pre & w0 & Ht & Hpre & Hperf).
      exists obj, msg, pre, w0. split_and!; [done|done|done| |done].
      by apply outcome_failed.
    + do 3 right. left. eexists. by split_and!.
    + do 3 right. left. eexists. by split_and!.
  - destruct o as [?|?|obj|?]; simpl in Hcase.
    + do 4 right. eexists. by split_and!.
    + do 4 right. eexists. by split_and!.
    + destruct Hcase as (msg & -> & Hlast). do 2 right; left.
      destruct (last_failed_performed client _ _ _ _ _ Hrep Hlast)
        as (pre & w0 & Ht & Hpre & Hperf).
      exists obj, msg, pre, w0. split_and!; [done|done|done| |done].
      by apply outcome_failed.
    + do 4 right. eexists. by split_and!.
Qed.

End ScheduleCauseProofs.

(** ** The further properties on the small cluster *)

Lemma mock_read_only : read_only_lookups mock.client.
Proof.
  intros obj w. simpl. unfold mock.volume, mock.params.
  by destruct (mock.present (mock.pvc_name obj) w).
Qed.

(** Both claims of the mixed application are bound. *)
Lemma GetVolumeParameters_last_wins_witness :
  value_of (GetVolumeParameters mock.client (scheduler.mkContext "r" mock.mixed))
    (mock.mkCluster true ["pvc/a-r"; "pvc/b-r"] [])
  = (list_to_map
       (reverse [("pv-pvc/a-r", {[ "repl" := "3" ]}); ("pv-pvc/b-r", {[ "repl" := "3" ]})]),
     None).
Proof.
  apply (GetVolumeParameters_last_wins mock.client (scheduler.mkContext "r" mock.mixed)
           (mock.mkCluster true ["pvc/a-r"; "pvc/b-r"] [])
           [("pv-pvc/a-r", {[ "repl" := "3" ]}); ("pv-pvc/b-r", {[ "repl" := "3" ]})]).
  reflexivity.
Defined.

Lemma GetVolumeParameters_keys_witness :
  (value_of (GetVolumes mock.client (scheduler.mkContext "r" mock.mixed))
     (mock.mkCluster true ["pvc/a-r"; "pvc/b-r"] [])).2 = None ∧
  dom (value_of (GetVolumeParameters mock.client (scheduler.mkContext "r" mock.mixed))
         (mock.mkCluster true ["pvc/a-r"; "pvc/b-r"] [])).1
  = list_to_set
      (value_of (GetVolumes mock.client (scheduler.mkContext "r" mock.mixed))
         (mock.mkCluster true ["pvc/a-r"; "pvc/b-r"] [])).1.
Proof.
  apply (GetVolumeParameters_keys mock.client (scheduler.mkContext "r" mock.mixed)
           (mock.mkCluster true ["pvc/a-r"; "pvc/b-r"] [])).
  - exact mock_read_only.
  - reflexivity.
Defined.

(** The two registered applications asked for by key, in the other order. *)
Lemma Schedule_one_context_per_key_witness :
  Forall2
    (λ key ctx,
       factory.Get (factory.of_registry [mock.echo; mock.postgres]) key
         = inr (scheduler.App ctx) ∧ scheduler.UID ctx = "run-1")
    ["postgres"; "echo"]
    [scheduler.mkContext "run-1" mock.postgres; scheduler.mkContext "run-1" mock.echo].
Proof.
  apply (Schedule_one_context_per_key mock.client mock.GoSyntax
           (factory.of_registry [mock.echo; mock.postgres]) "run-1"
           (scheduler.mkScheduleOptions ["postgres"; "echo"]) mock.fresh).
  - discriminate.
  - reflexivity.
Defined.

(** The second of three keys is unknown. *)
Lemma Schedule_first_unresolved_key_witness :
  Schedule mock.client mock.GoSyntax (factory.of_registry [mock.echo; mock.postgres])
    "run-1" (scheduler.mkScheduleOptions ["echo"; "redis"; "mongo"]) mock.fresh
  = (([], Some (ErrUnknownAppKind "redis")), mock.fresh, []).
Proof.
  apply (Schedule_first_unresolved_key mock.client mock.GoSyntax
           (factory.of_registry [mock.echo; mock.postgres]) "run-1"
           (scheduler.mkScheduleOptions ["echo"; "redis"; "mongo"])
           ["echo"] ["mongo"] "redis").
  - reflexivity.
  - constructor; [by exists mock.echo|constructor].
  - reflexivity.
Defined.

(** [Init] twice on the fresh cluster: four nodes. *)
Lemma Init_accumulates_witness :
  scheduler.Name <$>
    GetNodes (value_of (Init mock.client (value_of (Init mock.client (mkK8s []))
                                            mock.fresh).1) mock.fresh).1
  = ["master-0"; "worker-0"; "master-0"; "worker-0"].
Proof.
  rewrite (proj1 (proj2 (Init_accumulates mock.client (mkK8s []) mock.fresh mock.fresh
                           mock.fresh (v1.mkNodeList [mock.master0; mock.worker0])
                           (v1.mkNodeList [mock.master0; mock.worker0])
                           eq_refl eq_refl))).
  reflexivity.
Defined.

(** The three deployments scheduled on the fresh cluster; [Destroy] of
    their context on a cluster where the second is missing fails on it,
    after deleting the first. *)
Lemma scheduled_core_errors_witness :
  ∃ obj msg pre w0,
    DeploymentObj obj ∈ context_core (scheduler.mkContext "run-1" mock.trio) ∧
    trace_of (Destroy mock.client mock.GoSyntax (scheduler.mkContext "run-1" mock.trio))
      (mock.mkCluster true ["deploy/first-run-1"; "deploy/third-run-1"] [])
      = pre ++ [mkEvent (CallDeleteDeployment obj) (Some msg)] ∧
    replays mock.client pre
      (mock.mkCluster true ["deploy/first-run-1"; "deploy/third-run-1"] []) w0 ∧
    k8sutils.DeleteDeployment mock.client obj w0
      = (Err msg,
         world_of (Destroy mock.client mock.GoSyntax
                     (scheduler.mkContext "run-1" mock.trio))
           (mock.mkCluster true ["deploy/first-run-1"; "deploy/third-run-1"] [])).
Proof.
  destruct (scheduled_core_errors mock.client mock.GoSyntax
              (factory.of_registry [mock.trio]) "run-1"
              (scheduler.mkScheduleOptions []) mock.fresh
              (scheduler.mkContext "run-1" mock.trio) eq_refl)
    as (_ & Hdestroy & _).
  - apply list_elem_of_lookup. exists 0. reflexivity.
  - apply (Hdestroy
             (mock.mkCluster true ["deploy/first-run-1"; "deploy/third-run-1"] [])
             (ErrFailedToDestroyApp mock.trio
                "Failed to destroy Deployment: second-run-1. Err: not found: deploy/second-run-1")).
    reflexivity.
Defined.

(** The postgres application scheduled on the fresh cluster;
    [DeleteVolumes] of its context on a cluster that holds the storage
    class but not the claim deletes the class and fails on the claim. *)
Lemma scheduled_storage_errors_witness :
  ∃ msg pre w0 ev,
    trace_of (DeleteVolumes mock.client mock.GoSyntax
                (scheduler.mkContext "run-1" mock.postgres))
      (mock.mkCluster true ["sc/px-postgres-sc"] []) = pre ++ [ev] ∧
    replays mock.client pre (mock.mkCluster true ["sc/px-postgres-sc"] []) w0 ∧
    ((∃ obj, StorageClassObj obj ∈ context_storage (scheduler.mkContext "run-1" mock.postgres) ∧
             ev = mkEvent (CallDeleteStorageClass obj) (Some msg) ∧
             k8sutils.DeleteStorageClass mock.client obj w0
               = (Err msg,
                  world_of (DeleteVolumes mock.client mock.GoSyntax
                              (scheduler.mkContext "run-1" mock.postgres))
                    (mock.mkCluster true ["sc/px-postgres-sc"] []))) ∨
     (∃ obj, PersistentVolumeClaimObj obj
               ∈ context_storage (scheduler.mkContext "run-1" mock.postgres) ∧
             ev = mkEvent (CallDeletePersistentVolumeClaim obj) (Some msg) ∧
             k8sutils.DeletePersistentVolumeClaim mock.client obj w0
               = (Err msg,
                  world_of (DeleteVolumes mock.client mock.GoSyntax
                              (scheduler.mkContext "run-1" mock.postgres))
                    (mock.mkCluster true ["sc/px-postgres-sc"] [])))).
Proof.
  destruct (scheduled_storage_errors mock.client mock.GoSyntax
              (factory.of_registry [mock.postgres]) "run-1"
              (scheduler.mkScheduleOptions []) mock.fresh
              (scheduler.mkContext "run-1" mock.postgres) eq_refl)
    as (_ & Hdelete).
  - apply list_elem_of_lookup. exists 0. reflexivity.
  - apply (Hdelete (mock.mkCluster true ["sc/px-postgres-sc"] [])
             (ErrFailedToDestroyStorage mock.postgres
                "Failed to destroy PVC: postgres-data-run-1. Err: not found: pvc/postgres-data-run-1")).
    reflexivity.
Defined.

(** [Destroy] on three deployments of which the second is missing: the
    cause carries the client's message for it. *)
Lemma Destroy_error_cause_witness :
  let ctx := scheduler.mkContext "r" mock.trio in
  let w := mock.mkCluster true ["deploy/first-r"; "deploy/third-r"] [] in
  let e := ErrFailedToDestroyApp mock.trio
             "Failed to destroy Deployment: second-r. Err: not found: deploy/second-r" in
  ((∃ obj msg pre w0,
      DeploymentObj obj ∈ context_core ctx ∧
      trace_of (Destroy mock.client mock.GoSyntax ctx) w
        = pre ++ [mkEvent (CallDeleteDeployment obj) (Some msg)] ∧
      replays mock.client pre w w0 ∧
      k8sutils.DeleteDeployment mock.client obj w0
        = (Err msg, world_of (Destroy mock.client mock.GoSyntax ctx) w) ∧
      e = ErrFailedToDestroyApp (scheduler.App ctx)
            ("Failed to destroy Deployment: " +:+ v1beta1.Name obj
             +:+ ". Err: " +:+ msg)) ∨
   (∃ o,
      o ∈ context_core ctx ∧ delete_request o = None ∧
      e = ErrFailedToDestroyApp (scheduler.App ctx)
            ("Failed to destroy unsupported core component: " +:+ mock.GoSyntax o +:+ "."))) ∧
  replays mock.client (trace_of (Destroy mock.client mock.GoSyntax ctx) w) w
    (world_of (Destroy mock.client mock.GoSyntax ctx) w).
Proof.
  intros ctx w e.
  apply (Destroy_error_cause mock.client mock.GoSyntax ctx w e).
  reflexivity.
Defined.

(** The key "echo" twice: the cause names the claim that exists already. *)
Lemma Schedule_error_cause_witness :
  let fac := factory.of_registry [mock.echo] in
  let instanceID := "run-1" in
  let options := scheduler.mkScheduleOptions ["echo"; "echo"] in
  let specs := [mock.echo; mock.echo] in
  let w := mock.fresh in
  let e := ErrFailedToScheduleApp mock.echo
             "Failed to create PVC: echo-data-run-1. Err: already exists: pvc/echo-data-run-1" in
  (∃ s, s ∈ specs ∧
    ((∃ obj msg pre w0,
        StorageClassObj obj ∈ spec.Storage s instanceID ∧
        trace_of (Schedule mock.client mock.GoSyntax fac instanceID options) w
          = pre ++ [mkEvent (CallCreateStorageClass obj) (Some msg)] ∧
        replays mock.client pre w w0 ∧
        k8sutils.CreateStorageClass mock.client obj w0
          = (Err msg, world_of (Schedule mock.client mock.GoSyntax fac instanceID options) w) ∧
        e = ErrFailedToScheduleApp s
              ("Failed to create storage class: " +:+ storage_v1beta1.Name obj
               +:+ ". Err: " +:+ msg)) ∨
     (∃ obj msg pre w0,
        PersistentVolumeClaimObj obj ∈ spec.Storage s instanceID ∧
        trace_of (Schedule mock.client mock.GoSyntax fac instanceID options) w
          = pre ++ [mkEvent (CallCreatePersistentVolumeClaim obj) (Some msg)] ∧
        replays mock.client pre w w0 ∧
        k8sutils.CreatePersistentVolumeClaim mock.client obj w0
          = (Err msg, world_of (Schedule mock.client mock.GoSyntax fac instanceID options) w) ∧
        e = ErrFailedToScheduleApp s
              ("Failed to create PVC: " +:+ v1.pvc_Name obj +:+ ". Err: " +:+ msg)) ∨
     (∃ obj msg pre w0,
        DeploymentObj obj ∈ spec.Core s instanceID ∧
        trace_of (Schedule mock.client mock.GoSyntax fac instanceID options) w
          = pre ++ [mkEvent (CallCreateDeployment obj) (Some msg)] ∧
        replays mock.client pre w w0 ∧
        k8sutils.CreateDeployment mock.client obj w0
          = (Err msg, world_of (Schedule mock.client mock.GoSyntax fac instanceID options) w) ∧
        e = ErrFailedToScheduleApp s
              ("Failed to create Deployment: " +:+ v1beta1.Name obj
               +:+ ". Err: " +:+ msg)) ∨
     (∃ o,
        o ∈ spec.Storage s instanceID ∧ create_storage_request o = None ∧
        e = ErrFailedToScheduleApp s
              ("Failed to create unsupported storage component: "
               +:+ mock.GoSyntax o +:+ ".")) ∨
     (∃ o,
        o ∈ spec.Core s instanceID ∧ create_core_request o = None ∧
        e = ErrFailedToScheduleApp s
              ("Failed to create unsupported core component: "
               +:+ mock.GoSyntax o +:+ ".")))) ∧
  replays mock.client
    (trace_of (Schedule mock.client mock.GoSyntax fac instanceID options) w) w
    (world_of (Schedule mock.client mock.GoSyntax fac instanceID options) w).
Proof.
  intros fac instanceID options specs w e.
  apply (Schedule_error_cause mock.client mock.GoSyntax fac instanceID options specs w e).
  - reflexivity.
  - reflexivity.
Defined.

(** ** Teardown of what Schedule created *)

Lemma served_event {A : Type} (req : A → option Call) (xs : list A) (t : list Event)
    (x : A) (c : Call) :
  served req xs t → x ∈ xs → req x = Some c → mkEvent c None ∈ t.
Proof.
  intros Hs Hx Hreq. apply list_elem_of_lookup in Hx as [i Hi].
  destruct (Forall2_lookup_l _ _ _ _ _ Hs Hi) as (ev & Hev & Hcall & Hok).
  apply list_elem_of_lookup. exists i. rewrite Hev. f_equal.
  destruct ev as [c' fl]. unfold succeeded in Hok. simpl in *. congruence.
Qed.

Section TeardownProofs.
Context {World : Type} (client : k8sutils.Client World).
Context (GoSyntax : ResourceObject → string).
Context (fac : factory.Factory).

(** X17. Teardown aims at what was set up.  For a context that [Schedule]
    returned without an error, every deployment that [Destroy] has the
    client delete, and every storage class and claim that [DeleteVolumes]
    has it delete, is an object that the client created, answering without
    an error, during this [Schedule] call, since both operations expand the
    same specification with the context's UID.  On both sides the trace is
    a true record of the calls the client received and of its answers. *)
Theorem teardown_targets_created (instanceID : string)
    (options : scheduler.ScheduleOptions) (w : World) (ctx : scheduler.Context) :
  (value_of (Schedule client GoSyntax fac instanceID options) w).2 = None →
  ctx ∈ (value_of (Schedule client GoSyntax fac instanceID options) w).1 →
  replays client
    (trace_of (Schedule client GoSyntax fac instanceID options) w) w
    (world_of (Schedule client GoSyntax fac instanceID options) w) ∧
  (∀ w',
     replays client (trace_of (Destroy client GoSyntax ctx) w') w'
       (world_of (Destroy client GoSyntax ctx) w') ∧
     ∀ ev, ev ∈ trace_of (Destroy client GoSyntax ctx) w' →
       ∃ obj, call ev = CallDeleteDeployment obj ∧
              mkEvent (CallCreateDeployment obj) None
                ∈ trace_of (Schedule client GoSyntax fac instanceID options) w) ∧
  (∀ w',
     replays client (trace_of (DeleteVolumes client GoSyntax ctx) w') w'
       (world_of (DeleteVolumes client GoSyntax ctx) w') ∧
     ∀ ev, ev ∈ trace_of (DeleteVolumes client GoSyntax ctx) w' →
       (∃ obj, call ev = CallDeleteStorageClass obj ∧
               mkEvent (CallCreateStorageClass obj) None
                 ∈ trace_of (Schedule client GoSyntax fac instanceID options) w) ∨
       (∃ obj, call ev = CallDeletePersistentVolumeClaim obj ∧
               mkEvent (CallCreatePersistentVolumeClaim obj) None
                 ∈ trace_of (Schedule client GoSyntax fac instanceID options) w)).
Proof.
  intros Hnone Hctx.
  split; [apply Schedule_faithful|].
  pose proof (Schedule_outcome client GoSyntax fac instanceID options w) as Hout.
  destruct (value_of _ w) as [ctxs [e|]]; [done|]. simpl in *.
  destruct Hout as (specs & _ & -> & Hserved).
  apply list_elem_of_fmap in Hctx as (s & -> & Hs).
  split; intros w'; (split; [first [apply Destroy_faithful|apply DeleteVolumes_faithful]|]);
    intros ev Hev.
  - pose proof (for_range_fail_fast
                  (Destroy_core client GoSyntax (scheduler.mkContext instanceID s))
                  delete_request (spec.Core s instanceID) w'
                  (Destroy_core_dispatches client GoSyntax _)) as Hff.
    apply fail_fast_requests in Hff.
    destruct (proj1 (Forall_forall _ _) Hff ev Hev) as (o & Ho & Hreq).
    destruct o as [?|?|obj|?]; try done. injection Hreq as Hc. exists obj.
    split; [done|].
    apply (served_event create_request (work instanceID specs) _
             (CoreOf s (DeploymentObj obj))); [done| |done].
    apply (work_elem_of _ _ s); [done|]. unfold components.
    apply elem_of_app. right. apply list_elem_of_fmap. by eexists.
  - pose proof (for_range_fail_fast
                  (DeleteVolumes_storage client GoSyntax (scheduler.mkContext instanceID s))
                  delete_storage_request (spec.Storage s instanceID) w'
                  (DeleteVolumes_storage_dispatches client GoSyntax _)) as Hff.
    apply fail_fast_requests in Hff.
    destruct (proj1 (Forall_forall _ _) Hff ev Hev) as (o & Ho & Hreq).
    destruct o as [obj|obj|?|?]; try done; injection Hreq as Hc;
      [left|right]; exists obj; (split; [done|]).
    + apply (served_event create_request (work instanceID specs) _
               (StorageOf s (StorageClassObj obj))); [done| |done].
      apply (work_elem_of _ _ s); [done|]. unfold components.
      apply elem_of_app. left. apply list_elem_of_fmap. by eexists.
    + apply (served_event create_request (work instanceID specs) _
               (StorageOf s (PersistentVolumeClaimObj obj))); [done| |done].
      apply (work_elem_of _ _ s); [done|]. unfold components.
      apply elem_of_app. left. apply list_elem_of_fmap. by eexists.
Qed.

End TeardownProofs.

(** The three deployments scheduled on the fresh cluster and destroyed on
    the cluster that results. *)
Lemma teardown_targets_created_witness :
  replays mock.client
    (trace_of (Schedule mock.client mock.GoSyntax (factory.of_registry [mock.trio])
                 "run-1" (scheduler.mkScheduleOptions [])) mock.fresh)
    mock.fresh
    (mock.mkCluster true
       ["deploy/first-run-1"; "deploy/second-run-1"; "deploy/third-run-1"]
       [mock.master0; mock.worker0]) ∧
  replays mock.client
    (trace_of (Destroy mock.client mock.GoSyntax (scheduler.mkContext "run-1" mock.trio))
       (mock.mkCluster true
          ["deploy/first-run-1"; "deploy/second-run-1"; "deploy/third-run-1"]
          [mock.master0; mock.worker0]))
    (mock.mkCluster true
       ["deploy/first-run-1"; "deploy/second-run-1"; "deploy/third-run-1"]
       [mock.master0; mock.worker0])
    (mock.mkCluster true [] [mock.master0; mock.worker0]) ∧
  ∃ obj,
    CallDeleteDeployment (v1beta1.mkDeployment "second-run-1") = CallDeleteDeployment obj ∧
    mkEvent (CallCreateDeployment obj) None
      ∈ trace_of (Schedule mock.client mock.GoSyntax (factory.of_registry [mock.trio])
                    "run-1" (scheduler.mkScheduleOptions [])) mock.fresh.
Proof.
  destruct (teardown_targets_created mock.client mock.GoSyntax
              (factory.of_registry [mock.trio]) "run-1"
              (scheduler.mkScheduleOptions []) mock.fresh
              (scheduler.mkContext "run-1" mock.trio) eq_refl)
    as (Hsched & Hdestroy & _).
  - apply list_elem_of_lookup. exists 0. reflexivity.
  - destruct (Hdestroy
                (mock.mkCluster true
                   ["deploy/first-run-1"; "deploy/second-run-1"; "deploy/third-run-1"]
                   [mock.master0; mock.worker0])) as [Hrep Hev].
    split_and!; [exact Hsched|exact Hrep|].
    apply (Hev (mkEvent (CallDeleteDeployment (v1beta1.mkDeployment "second-run-1")) None)).
    apply list_elem_of_lookup. exists 1. reflexivity.
Defined.
